(** * word_mem: the review scheduler of [UserDatabase]

    A shallow embedding of [UserDatabase.get_words_for_review] and
    [UserDatabase.update_word_progress] (src/word_mem.py), together with
    the part of the SQLite schema they read and write.

    Modelling conventions.
    - The three tables the two methods touch are part of an explicit
      [World]: [words] is the table in rowid order, [user_word_progress]
      is keyed by its [UNIQUE(user_id, word_id)] pair, [study_records] is
      the append-only log.
    - Python integers and SQLite INTEGER columns are [Z].
    - A timestamp is a [Z] (microseconds); the order on [Z] stands for the
      order in which SQLite compares the stored values.
    - [datetime.now()] and SQLite's [CURRENT_TIMESTAMP] read the wall
      clock.  The clock is the sequence of readings [clock : nat -> Z] and
      [ticks] counts the readings already taken. *)

From stdpp Require Import base gmap list strings.
From Stdlib Require Import ZArith Lia Sorted.

Local Open Scope Z_scope.

(** ** Schema *)

(** [words]: id, word, pronunciation, meaning, level, created_at. *)
Record WordRow := {
  w_id : Z;
  w_word : string;
  w_pronunciation : string;
  w_meaning : string;
  w_level : string;
  w_created_at : Z
}.

(** [user_word_progress], without its surrogate [id] and the two key
    columns, which are the key of the map.  Both dates are nullable. *)
Record ProgressRow := {
  uwp_review_count : Z;
  uwp_correct_count : Z;
  uwp_difficulty : Z;
  uwp_last_review_date : option Z;
  uwp_next_review_date : option Z;
  uwp_mastery_level : Z;
  uwp_consecutive_correct : Z
}.

(** [study_records]; [response_time] is never written and stays NULL. *)
Record StudyRecord := {
  sr_user_id : Z;
  sr_word_id : Z;
  sr_study_date : Z;
  sr_is_correct : bool;
  sr_study_mode : string
}.

Record World := {
  words : list WordRow;
  user_word_progress : gmap (Z * Z) ProgressRow;
  study_records : list StudyRecord;
  current_user_id : option Z;
  clock : nat → Z;
  ticks : nat
}.

(** ** A state monad over the world *)

Definition M (A : Type) : Type := World → A * World.

#[global] Instance M_ret : MRet M := λ A (a : A) (w : World), (a, w).
#[global] Instance M_bind : MBind M :=
  λ A B (f : A → M B) (m : M A) (w : World), let '(a, w') := m w in f a w'.

Definition gets {A} (f : World → A) : M A := λ w, (f w, w).
Definition modify (f : World → World) : M unit := λ w, ((), f w).
Definition exec {A} (m : M A) (w : World) : World := snd (m w).
Definition eval {A} (m : M A) (w : World) : A := fst (m w).

(** One reading of the wall clock. *)
Definition read_clock : M Z := λ w,
  (clock w (ticks w),
   {| words := words w; user_word_progress := user_word_progress w;
      study_records := study_records w; current_user_id := current_user_id w;
      clock := clock w; ticks := S (ticks w) |}).

(** [datetime.now()]. *)
Definition datetime_now : M Z := read_clock.

(** [timedelta(days=.., hours=.., minutes=..)], in microseconds. *)
Definition timedelta (days hours minutes : Z) : Z :=
  ((days * 24 + hours) * 60 + minutes) * 60 * 1000000.

(** Python truthiness of [self.current_user_id]: [None] and [0] are
    falsy. *)
Definition truthy_id (u : option Z) : option Z :=
  match u with
  | Some n => if n =? 0 then None else Some n
  | None => None
  end.

(** Truthiness of the [level] argument: [None] and the empty string are
    falsy. *)
Definition truthy_level (level : option string) : option string :=
  match level with
  | Some s => if String.eqb s "" then None else Some s
  | None => None
  end.

(** ** SQL statements *)

(** [SELECT review_count, correct_count, difficulty, mastery_level,
    consecutive_correct FROM user_word_progress WHERE user_id = ? AND
    word_id = ?] followed by [fetchone()]. *)
Definition select_progress (uid word_id : Z) : M (option (Z * Z * Z * Z * Z)) :=
  gets (λ w,
    match user_word_progress w !! (uid, word_id) with
    | Some r => Some (uwp_review_count r, uwp_correct_count r, uwp_difficulty r,
                      uwp_mastery_level r, uwp_consecutive_correct r)
    | None => None
    end).

(** [INSERT OR REPLACE INTO user_word_progress ...]: the row with the same
    (user_id, word_id) is replaced. *)
Definition insert_or_replace_progress (uid word_id : Z) (r : ProgressRow) : M unit :=
  modify (λ w,
    {| words := words w;
       user_word_progress := <[(uid, word_id) := r]> (user_word_progress w);
       study_records := study_records w; current_user_id := current_user_id w;
       clock := clock w; ticks := ticks w |}).

(** [INSERT INTO study_records (user_id, word_id, is_correct, study_mode)]:
    [study_date] takes its default, CURRENT_TIMESTAMP. *)
Definition insert_study_record (uid word_id : Z) (is_correct : bool)
    (study_mode : string) : M unit :=
  study_date ← read_clock;
  modify (λ w,
    {| words := words w; user_word_progress := user_word_progress w;
       study_records := study_records w ++
         [{| sr_user_id := uid; sr_word_id := word_id; sr_study_date := study_date;
             sr_is_correct := is_correct; sr_study_mode := study_mode |}];
       current_user_id := current_user_id w;
       clock := clock w; ticks := ticks w |}).

(** ** [update_word_progress] *)

(** The block that updates the counters (review_count, correct_count,
    difficulty, mastery_level, consecutive_correct). *)
Definition update_statistics (is_correct : bool) (s : Z * Z * Z * Z * Z)
    : Z * Z * Z * Z * Z :=
  let '(review_count, correct_count, difficulty, mastery_level, consecutive_correct) := s in
  let review_count := review_count + 1 in
  if is_correct then
    (review_count, correct_count + 1, Z.max 1 (difficulty - 1),
     Z.min 5 (mastery_level + 1), consecutive_correct + 1)
  else
    (review_count, correct_count, Z.min 5 (difficulty + 1),
     Z.max 0 (mastery_level - 1), 0).

(** The block that computes [next_review]; it may overwrite
    [mastery_level].  Returns (next_review, mastery_level). *)
Definition compute_next_review (is_correct : bool)
    (difficulty mastery_level consecutive_correct : Z) : M (Z * Z) :=
  if 3 <=? consecutive_correct then
    now ← datetime_now; mret (now + timedelta 365 0 0, 5)
  else if is_correct then
    if mastery_level <=? 1 then
      now ← datetime_now; mret (now + timedelta 0 0 20, mastery_level)
    else if mastery_level =? 2 then
      now ← datetime_now; mret (now + timedelta 0 1 0, mastery_level)
    else if mastery_level =? 3 then
      now ← datetime_now; mret (now + timedelta 0 8 0, mastery_level)
    else if mastery_level =? 4 then
      now ← datetime_now; mret (now + timedelta 1 0 0, mastery_level)
    else
      now ← datetime_now; mret (now + timedelta 2 0 0, mastery_level)
  else
    if 4 <=? difficulty then
      now ← datetime_now; mret (now + timedelta 0 0 5, mastery_level)
    else if 3 <=? difficulty then
      now ← datetime_now; mret (now + timedelta 0 0 10, mastery_level)
    else
      now ← datetime_now; mret (now + timedelta 0 0 15, mastery_level).

(** [if result: ... = result else: ... = 0, 0, 1, 0, 0]. *)
Definition unpack_result (result : option (Z * Z * Z * Z * Z)) : Z * Z * Z * Z * Z :=
  match result with
  | Some r => r
  | None => (0, 0, 1, 0, 0)
  end.

Definition update_word_progress (word_id : Z) (is_correct : bool)
    (study_mode : string) : M unit :=
  user ← gets current_user_id;
  match truthy_id user with
  | None => mret ()
  | Some uid =>
    result ← select_progress uid word_id;
    let '(review_count, correct_count, difficulty, mastery_level, consecutive_correct) :=
      update_statistics is_correct (unpack_result result) in
    '(next_review, mastery_level) ←
      compute_next_review is_correct difficulty mastery_level consecutive_correct;
    last_review ← datetime_now;
    _ ← insert_or_replace_progress uid word_id
      {| uwp_review_count := review_count; uwp_correct_count := correct_count;
         uwp_difficulty := difficulty; uwp_last_review_date := Some last_review;
         uwp_next_review_date := Some next_review;
         uwp_mastery_level := mastery_level;
         uwp_consecutive_correct := consecutive_correct |};
    insert_study_record uid word_id is_correct study_mode
  end.

(** ** [get_words_for_review] *)

(** The ten selected columns. *)
Record ReviewRow := {
  rr_id : Z;
  rr_word : string;
  rr_pronunciation : string;
  rr_meaning : string;
  rr_level : string;
  rr_review_count : Z;
  rr_correct_count : Z;
  rr_difficulty : Z;
  rr_mastery_level : Z;
  rr_consecutive_correct : Z
}.

(** SQL [COALESCE(x, d)]. *)
Definition coalesce {A} (x : option A) (d : A) : A :=
  match x with
  | Some a => a
  | None => d
  end.

(** A row of [words w LEFT JOIN user_word_progress uwp ON w.id =
    uwp.word_id AND uwp.user_id = ?]: the unique constraint leaves at most
    one progress row for a word, and none gives the all-NULL row. *)
Definition JoinedRow : Type := WordRow * option ProgressRow.

Definition left_join (uid : Z) (w : World) : list JoinedRow :=
  map (λ wr, (wr, user_word_progress w !! (uid, w_id wr))) (words w).

(** [uwp.next_review_date] of a joined row (NULL when there is no progress
    row or the column is NULL). *)
Definition next_review_date (j : JoinedRow) : option Z :=
  j.2 ≫= uwp_next_review_date.

(** [COALESCE(uwp.consecutive_correct, 0)]. *)
Definition consecutive_correct (j : JoinedRow) : Z :=
  coalesce (uwp_consecutive_correct <$> j.2) 0.

(** [WHERE (uwp.next_review_date IS NULL OR uwp.next_review_date <= ?)
    AND COALESCE(uwp.consecutive_correct, 0) < 3], and [AND w.level = ?]
    when [level] is truthy. *)
Definition where_clause (now : Z) (level : option string) (j : JoinedRow) : bool :=
  match next_review_date j with
  | None => true
  | Some d => d <=? now
  end
  && (consecutive_correct j <? 3)
  && match truthy_level level with
     | Some l => String.eqb (w_level j.1) l
     | None => true
     end.

(** [COALESCE(uwp.next_review_date, w.created_at)], the ORDER BY key. *)
Definition order_key (j : JoinedRow) : Z :=
  coalesce (next_review_date j) (w_created_at j.1).

(** [ORDER BY ... ASC] in front of a LIMIT: SQLite keeps the candidate rows
    in an index on (key, arrival number), so rows with equal keys stay in
    the order of the scan, which is the rowid order of [words]. *)
Fixpoint sorter_insert (x : JoinedRow) (l : list JoinedRow) : list JoinedRow :=
  match l with
  | [] => [x]
  | y :: l' =>
    if order_key x <=? order_key y then x :: y :: l' else y :: sorter_insert x l'
  end.

Fixpoint order_by (l : list JoinedRow) : list JoinedRow :=
  match l with
  | [] => []
  | x :: l' => sorter_insert x (order_by l')
  end.

(** [LIMIT ?]: a negative limit means no limit. *)
Definition sql_limit {A} (limit : Z) (l : list A) : list A :=
  if limit <? 0 then l else take (Z.to_nat limit) l.

Definition select_columns (j : JoinedRow) : ReviewRow :=
  {| rr_id := w_id j.1; rr_word := w_word j.1;
     rr_pronunciation := w_pronunciation j.1; rr_meaning := w_meaning j.1;
     rr_level := w_level j.1;
     rr_review_count := coalesce (uwp_review_count <$> j.2) 0;
     rr_correct_count := coalesce (uwp_correct_count <$> j.2) 0;
     rr_difficulty := coalesce (uwp_difficulty <$> j.2) 1;
     rr_mastery_level := coalesce (uwp_mastery_level <$> j.2) 0;
     rr_consecutive_correct := coalesce (uwp_consecutive_correct <$> j.2) 0 |}.

(** The rows the query selects, before the columns are projected. *)
Definition review_query (uid now limit : Z) (level : option string) (w : World)
    : list JoinedRow :=
  sql_limit limit (order_by (List.filter (where_clause now level) (left_join uid w))).

Definition get_words_for_review (limit : Z) (level : option string)
    : M (list ReviewRow) :=
  user ← gets current_user_id;
  match truthy_id user with
  | None => mret []
  | Some uid =>
    now ← datetime_now;
    rows ← gets (review_query uid now limit level);
    mret (select_columns <$> rows)
  end.

(** ** Derived notions used in the statements *)

(** The five values [update_word_progress] starts from: the stored row of
    (uid, word_id), or the initial values when there is none. *)
Definition stored_state (uid word_id : Z) (w : World) : Z * Z * Z * Z * Z :=
  unpack_result (eval (select_progress uid word_id) w).

(** The interval [compute_next_review] adds to the clock reading. *)
Definition review_interval (is_correct : bool)
    (difficulty mastery_level consecutive_correct : Z) : Z :=
  fst (eval (compute_next_review is_correct difficulty mastery_level
               consecutive_correct)
         {| words := []; user_word_progress := ∅; study_records := [];
            current_user_id := None; clock := λ _, 0; ticks := 0%nat |}).

(** The mastery level [compute_next_review] leaves. *)
Definition final_mastery (mastery_level consecutive_correct : Z) : Z :=
  if 3 <=? consecutive_correct then 5 else mastery_level.

(** The row written for an answer, from the starting values, the reading
    [now] behind [next_review] and the reading [last] stored as
    [last_review_date]. *)
Definition written_row (is_correct : bool) (s : Z * Z * Z * Z * Z) (now last : Z)
    : ProgressRow :=
  let '(review_count, correct_count, difficulty, mastery_level, consecutive_correct) :=
    update_statistics is_correct s in
  {| uwp_review_count := review_count; uwp_correct_count := correct_count;
     uwp_difficulty := difficulty; uwp_last_review_date := Some last;
     uwp_next_review_date :=
       Some (now + review_interval is_correct difficulty mastery_level
                     consecutive_correct);
     uwp_mastery_level := final_mastery mastery_level consecutive_correct;
     uwp_consecutive_correct := consecutive_correct |}.

(** The learner the two methods act for. *)
Definition logged_in (w : World) (uid : Z) : Prop :=
  truthy_id (current_user_id w) = Some uid.

(** The progress row of (uid, word_id) after an answer. *)
Definition progress_after (uid word_id : Z) (is_correct : bool)
    (study_mode : string) (w : World) : option ProgressRow :=
  user_word_progress (exec (update_word_progress word_id is_correct study_mode) w)
    !! (uid, word_id).

(** The order [order_by] sorts into. *)
Definition key_le (x y : JoinedRow) : Prop := order_key x ≤ order_key y.

(** The world [w] with another clock. *)
Definition with_clock (c : nat → Z) (n : nat) (w : World) : World :=
  {| words := words w; user_word_progress := user_word_progress w;
     study_records := study_records w; current_user_id := current_user_id w;
     clock := c; ticks := n |}.

(** Two worlds with the same tables and the same logged-in learner. *)
Definition same_store (w1 w2 : World) : Prop :=
  words w1 = words w2 ∧ user_word_progress w1 = user_word_progress w2 ∧
  study_records w1 = study_records w2 ∧ current_user_id w1 = current_user_id w2.

(** The row [get_words_for_review] returns for a word. *)
Definition review_row (w : World) (uid : Z) (wr : WordRow) : ReviewRow :=
  select_columns (wr, user_word_progress w !! (uid, w_id wr)).

(** The ids of the words [get_words_for_review] returns. *)
Definition review_ids (limit : Z) (level : option string) (w : World) : list Z :=
  rr_id <$> eval (get_words_for_review limit level) w.

(** A study record without its mode. *)
Definition without_mode (r : StudyRecord) : Z * Z * Z * bool :=
  (sr_user_id r, sr_word_id r, sr_study_date r, sr_is_correct r).

(** ** The data model in the words of the specification *)

(** The field invariants of a progress record, on the five counters. *)
Definition field_invariants (s : Z * Z * Z * Z * Z) : Prop :=
  let '(review_count, correct_count, difficulty, mastery_level, consecutive_correct) := s in
  0 ≤ review_count ∧ correct_count ≤ review_count ∧
  1 ≤ difficulty ≤ 5 ∧ 0 ≤ mastery_level ≤ 5 ∧ 0 ≤ consecutive_correct.

Definition valid_record (r : ProgressRow) : Prop :=
  field_invariants (uwp_review_count r, uwp_correct_count r, uwp_difficulty r,
                    uwp_mastery_level r, uwp_consecutive_correct r).

(** An INTEGER of SQLite is a signed 64-bit number; the binding refuses a
    Python int outside this range (OverflowError) and the statement is
    not executed. *)
Definition sqlite_integer (z : Z) : Prop := - 2 ^ 63 ≤ z < 2 ^ 63.

(** The five counters of a row are values SQLite stores. *)
Definition row_fits (r : ProgressRow) : Prop :=
  sqlite_integer (uwp_review_count r) ∧ sqlite_integer (uwp_correct_count r) ∧
  sqlite_integer (uwp_difficulty r) ∧ sqlite_integer (uwp_mastery_level r) ∧
  sqlite_integer (uwp_consecutive_correct r).

(** [isDue]: the due date is absent or not after [now]. *)
Definition is_due (next : option Z) (now : Z) : Prop :=
  match next with
  | None => True
  | Some d => d ≤ now
  end.

(** An item is eligible when it is due, its streak (0 without a record) is
    below 3, and it carries the category asked for, if one is. *)
Definition item_eligible (w : World) (uid now : Z) (level : option string)
    (wr : WordRow) : Prop :=
  match user_word_progress w !! (uid, w_id wr) with
  | None => True
  | Some r => is_due (uwp_next_review_date r) now ∧ uwp_consecutive_correct r < 3
  end ∧
  match truthy_level level with
  | Some l => w_level wr = l
  | None => True
  end.

#[global] Instance item_eligible_dec w uid now level wr :
  Decision (item_eligible w uid now level wr).
Proof. unfold item_eligible, is_due. repeat case_match; apply _. Defined.

(** The number of eligible items. *)
Definition eligible_count (w : World) (uid now : Z) (level : option string) : nat :=
  length (filter (item_eligible w uid now level) (words w)).

(** ** Sample worlds *)

Definition mk_word (id created : Z) (lvl : string) : WordRow :=
  {| w_id := id; w_word := "w"; w_pronunciation := ""; w_meaning := "m";
     w_level := lvl; w_created_at := created |}.

Definition mk_world (ws : list WordRow) (p : gmap (Z * Z) ProgressRow)
    (u : option Z) (c : nat → Z) : World :=
  {| words := ws; user_word_progress := p; study_records := [];
     current_user_id := u; clock := c; ticks := 0%nat |}.

Definition mk_progress (rc cc d m c : Z) (next : option Z) : ProgressRow :=
  {| uwp_review_count := rc; uwp_correct_count := cc; uwp_difficulty := d;
     uwp_last_review_date := None; uwp_next_review_date := next;
     uwp_mastery_level := m; uwp_consecutive_correct := c |}.


(** A learner two correct answers into a streak on word 7. *)
Definition world_streak2 : World :=
  mk_world [mk_word 7 0 "a"] {[ (1, 7) := mk_progress 2 2 1 2 2 (Some 50) ]}
    (Some 1) (λ n, 1000 + Z.of_nat n).

(** A stored row whose mastery level is out of range. *)
Definition world_corrupt : World :=
  mk_world [mk_word 7 0 "a"] {[ (1, 7) := mk_progress 1 4 0 9 0 (Some 50) ]}
    (Some 1) (λ n, 1000 + Z.of_nat n).

(** Two fresh words and no progress. *)
Definition world_two_fresh : World :=
  mk_world [mk_word 1 0 "a"; mk_word 2 0 "a"] ∅ (Some 1) (λ n, 1000 + Z.of_nat n).

(** Word 1 was never reviewed; word 2 was, and is due since 50, before
    word 1 was created. *)
Definition world_late_word : World :=
  mk_world [mk_word 1 100 "a"; mk_word 2 0 "a"]
    {[ (1, 2) := mk_progress 1 0 2 0 0 (Some 50) ]}
    (Some 1) (λ n, 200 + Z.of_nat n).

(** Nobody is logged in. *)
Definition world_logged_out : World :=
  mk_world [mk_word 1 0 "a"] ∅ None (λ n, 1000 + Z.of_nat n).

(** ** Sequences of answers *)

(** The five counters of the row written for an answer, from the five it
    starts from. *)
Definition advance (is_correct : bool) (s : Z * Z * Z * Z * Z) : Z * Z * Z * Z * Z :=
  let '(review_count, correct_count, difficulty, mastery_level, consecutive_correct) :=
    update_statistics is_correct s in
  (review_count, correct_count, difficulty,
   final_mastery mastery_level consecutive_correct, consecutive_correct).

(** One call of [update_word_progress] per answer (outcome, study mode),
    in order. *)
Fixpoint answer_all (word_id : Z) (answers : list (bool * string)) : M unit :=
  match answers with
  | [] => mret ()
  | (is_correct, study_mode) :: rest =>
    _ ← update_word_progress word_id is_correct study_mode;
    answer_all word_id rest
  end.

(** The number of correct outcomes, and the length of the run of correct
    outcomes that ends a sequence. *)
Definition count_correct (l : list bool) : nat :=
  length (filter (λ b, b = true) l).

Fixpoint leading_correct (l : list bool) : nat :=
  match l with
  | true :: l' => S (leading_correct l')
  | _ => 0%nat
  end.

Definition trailing_correct (l : list bool) : nat := leading_correct (reverse l).

(** The five counters of a returned row. *)
Definition row_counters (r : ReviewRow) : Z * Z * Z * Z * Z :=
  (rr_review_count r, rr_correct_count r, rr_difficulty r,
   rr_mastery_level r, rr_consecutive_correct r).

(** ** The rest of [UserDatabase]: users and system state *)

(** [users]: id, username, password_hash, email, created_at, last_login. *)
Record UserRow := {
  u_id : Z;
  u_username : string;
  u_password_hash : string;
  u_email : string;
  u_created_at : Z;
  u_last_login : option Z
}.

(** [system_state], without its surrogate [id] and the two key columns
    of [UNIQUE(user_id, state_key)], which are the key of the map. *)
Record StateRow := {
  st_state_value : string;
  st_updated_at : Z
}.

(** The object: the tables of [World] and its [current_user_id], the
    [users] table in rowid order, the AUTOINCREMENT counters SQLite keeps
    in [sqlite_sequence] for [users] and [words], and [system_state]. *)
Record UserDatabase := {
  world : World;
  users : list UserRow;
  users_seq : Z;
  words_seq : Z;
  system_state : gmap (Z * string) StateRow
}.

Definition MA (A : Type) : Type := UserDatabase → A * UserDatabase.

#[global] Instance MA_ret : MRet MA := λ A (a : A) (db : UserDatabase), (a, db).
#[global] Instance MA_bind : MBind MA :=
  λ A B (f : A → MA B) (m : MA A) (db : UserDatabase),
    let '(a, db') := m db in f a db'.

Definition getsA {A} (f : UserDatabase → A) : MA A := λ db, (f db, db).
Definition modifyA (f : UserDatabase → UserDatabase) : MA unit := λ db, ((), f db).
Definition execA {A} (m : MA A) (db : UserDatabase) : UserDatabase := snd (m db).
Definition evalA {A} (m : MA A) (db : UserDatabase) : A := fst (m db).

Definition set_world (w : World) (db : UserDatabase) : UserDatabase :=
  {| world := w; users := users db; users_seq := users_seq db;
     words_seq := words_seq db; system_state := system_state db |}.

(** A method of the scheduler, run on the object. *)
Definition lift {A} (m : M A) : MA A := λ db,
  let '(a, w) := m (world db) in (a, set_world w db).

(** [self.current_user_id = user_id]. *)
Definition set_current_user_id (u : option Z) (w : World) : World :=
  {| words := words w; user_word_progress := user_word_progress w;
     study_records := study_records w; current_user_id := u;
     clock := clock w; ticks := ticks w |}.

(** The rowid an AUTOINCREMENT table gives a new row: one more than the
    largest rowid the table has ever held. *)
Definition next_rowid (seq : Z) (ids : list Z) : Z := foldr Z.max seq ids + 1.

(** [hashlib.sha256(...).hexdigest()], from the standard library. *)
Class Sha256 := sha256_hexdigest : string → string.

(** [json.dumps] and [json.loads], from the standard library, on the
    values they serialise; [None] stands for JSONDecodeError. *)
Class Json (Value : Type) := {
  json_dumps : Value → string;
  json_loads : string → option Value
}.

Definition hash_password `{Sha256} (password : string) : string :=
  sha256_hexdigest password.

(** [register_user]: the insert fails with IntegrityError on a username
    already present, and the method returns None. *)
Definition register_user `{Sha256} (username password email : string)
    : MA (option Z) :=
  let password_hash := hash_password password in
  taken ← getsA (λ db, existsb (λ u, String.eqb (u_username u) username) (users db));
  if (taken : bool) then mret None
  else
    created_at ← lift read_clock;
    user_id ← getsA (λ db, next_rowid (users_seq db) (u_id <$> users db));
    _ ← modifyA (λ db,
      {| world := world db;
         users := users db ++
           [{| u_id := user_id; u_username := username;
               u_password_hash := password_hash; u_email := email;
               u_created_at := created_at; u_last_login := None |}];
         users_seq := user_id; words_seq := words_seq db;
         system_state := system_state db |});
    mret (Some user_id).

(** [UPDATE users SET last_login = CURRENT_TIMESTAMP WHERE id = ?]. *)
Definition update_last_login (user_id : Z) : MA unit :=
  now ← lift read_clock;
  modifyA (λ db,
    {| world := world db;
       users := (λ u, if u_id u =? user_id then
                   {| u_id := u_id u; u_username := u_username u;
                      u_password_hash := u_password_hash u; u_email := u_email u;
                      u_created_at := u_created_at u; u_last_login := Some now |}
                 else u) <$> users db;
       users_seq := users_seq db; words_seq := words_seq db;
       system_state := system_state db |}).

(** [login_user]: the first row with the username and the hash of the
    password, if any, becomes the current user. *)
Definition login_user `{Sha256} (username password : string) : MA bool :=
  let password_hash := hash_password password in
  result ← getsA (λ db,
    u_id <$> List.find (λ u, String.eqb (u_username u) username
                             && String.eqb (u_password_hash u) password_hash)
                       (users db));
  match result with
  | Some user_id =>
    _ ← update_last_login user_id;
    _ ← lift (modify (set_current_user_id (Some user_id)));
    mret true
  | None => mret false
  end.

(** [get_user_info]: the row of [user_id], or of the current user when
    none is given; [id = NULL] selects nothing. *)
Definition get_user_info (user_id : option Z)
    : MA (option (string * string * Z * option Z)) :=
  user_id ← match user_id with
            | None => getsA (λ db, current_user_id (world db))
            | Some _ => mret user_id
            end;
  getsA (λ db,
    match user_id with
    | None => None
    | Some i =>
      (λ u, (u_username u, u_email u, u_created_at u, u_last_login u)) <$>
        List.find (λ u, u_id u =? i) (users db)
    end).

(** [INSERT OR REPLACE INTO system_state (user_id, state_key,
    state_value)]; [updated_at] takes its default, CURRENT_TIMESTAMP. *)
Definition save_system_state `{Json Value} (key : string) (value : Value)
    : MA bool :=
  user ← getsA (λ db, current_user_id (world db));
  match truthy_id user with
  | None => mret false
  | Some uid =>
    updated_at ← lift read_clock;
    _ ← modifyA (λ db,
      {| world := world db; users := users db; users_seq := users_seq db;
         words_seq := words_seq db;
         system_state :=
           <[(uid, key) := {| st_state_value := json_dumps value;
                              st_updated_at := updated_at |}]> (system_state db) |});
    mret true
  end.

Definition load_system_state `{Json Value} (key : string) (default_value : Value)
    : MA Value :=
  user ← getsA (λ db, current_user_id (world db));
  match truthy_id user with
  | None => mret default_value
  | Some uid =>
    result ← getsA (λ db, st_state_value <$> system_state db !! (uid, key));
    match result with
    | Some state_value =>
      match json_loads state_value with
      | Some v => mret v
      | None => mret default_value
      end
    | None => mret default_value
    end
  end.

(** A value of the dictionary [get_all_system_states] returns: the decoded
    value, or the stored text when it does not decode. *)
Definition decode_or_raw `{Json Value} (r : StateRow) : Value + string :=
  match json_loads (st_state_value r) with
  | Some v => inl v
  | None => inr (st_state_value r)
  end.

Definition get_all_system_states `{Json Value} : MA (gmap string (Value + string)) :=
  user ← getsA (λ db, current_user_id (world db));
  match truthy_id user with
  | None => mret ∅
  | Some uid =>
    rows ← getsA (λ db,
      default ∅ (map_curry (M1 := gmap Z) (M2 := gmap string) (system_state db) !! uid));
    mret (decode_or_raw <$> rows)
  end.

(** Truthiness of the [key] argument of [clear_system_state]. *)
Definition truthy_key (key : option string) : option string :=
  match key with
  | Some s => if String.eqb s "" then None else Some s
  | None => None
  end.

Definition clear_system_state (key : option string) : MA bool :=
  user ← getsA (λ db, current_user_id (world db));
  match truthy_id user with
  | None => mret false
  | Some uid =>
    _ ← modifyA (λ db,
      {| world := world db; users := users db; users_seq := users_seq db;
         words_seq := words_seq db;
         system_state :=
           match truthy_key key with
           | Some k => delete (uid, k) (system_state db)
           | None => filter (λ kv, kv.1.1 ≠ uid) (system_state db)
           end |});
    mret true
  end.

(** ** Sample objects *)

(** A stand-in for the digest in the examples (it is not SHA-256). *)
Definition sample_digest : Sha256 := λ s, String.append "h:" s.

(** JSON on booleans: [true] and [false]. *)
Definition json_bool : Json bool :=
  {| json_dumps := λ b : bool, if b then "true" else "false";
     json_loads := λ s, if String.eqb s "true" then Some true
                        else if String.eqb s "false" then Some false
                        else None |}.

Definition mk_user (id : Z) (name hash : string) : UserRow :=
  {| u_id := id; u_username := name; u_password_hash := hash; u_email := "";
     u_created_at := 0; u_last_login := None |}.

(** One registered user, alice, nobody logged in. *)
Definition db_alice : UserDatabase :=
  {| world := world_logged_out;
     users := [mk_user 1 "alice" "h:secret"];
     users_seq := 1; words_seq := 1; system_state := ∅ |}.

(** User 1 logged in, with one stored state and one of user 2. *)
Definition db_states : UserDatabase :=
  {| world := world_two_fresh;
     users := [mk_user 1 "alice" "h:secret"; mk_user 2 "bob" "h:hunter2"];
     users_seq := 2; words_seq := 2;
     system_state :=
       {[ (1, "sound") := {| st_state_value := "true"; st_updated_at := 5 |};
          (1, "broken") := {| st_state_value := "{"; st_updated_at := 6 |};
          (2, "sound") := {| st_state_value := "false"; st_updated_at := 7 |} ]} |}.

(** ** [SettingsWidget.reset_progress] *)

(** [column = ?] with a parameter that may be None: a comparison with
    NULL matches no row. *)
Definition sql_eq (column : Z) (param : option Z) : bool :=
  match param with
  | Some p => column =? p
  | None => false
  end.

(** The database part of [reset_progress]; [reply_yes] is the answer to
    the confirmation dialog.  [DELETE FROM study_records WHERE user_id = ?]
    and [DELETE FROM user_word_progress WHERE user_id = ?], with
    [self.db.current_user_id] as the parameter. *)
Definition reset_progress (reply_yes : bool) : M unit :=
  if reply_yes then
    user ← gets current_user_id;
    modify (λ w,
      {| words := words w;
         user_word_progress :=
           filter (λ kv, sql_eq kv.1.1 user = false) (user_word_progress w);
         study_records :=
           List.filter (λ r, negb (sql_eq (sr_user_id r) user)) (study_records w);
         current_user_id := current_user_id w;
         clock := clock w; ticks := ticks w |})
  else mret ().

(** ** The counts of [get_user_statistics] *)

(** [SELECT COUNT( * ) FROM user_word_progress WHERE user_id = ? AND
    review_count > 0], the entry 'studied_words'. *)
Definition select_studied_words (uid : Z) (w : World) : Z :=
  Z.of_nat (size (filter (λ kv : Z * Z * ProgressRow,
                            kv.1.1 = uid ∧ 0 < uwp_review_count kv.2)
                         (user_word_progress w))).

(** [SELECT COUNT( * ) FROM user_word_progress WHERE user_id = ? AND
    consecutive_correct >= 3], the entry 'mastered_words'. *)
Definition select_mastered_words (uid : Z) (w : World) : Z :=
  Z.of_nat (size (filter (λ kv : Z * Z * ProgressRow,
                            kv.1.1 = uid ∧ 3 ≤ uwp_consecutive_correct kv.2)
                         (user_word_progress w))).

(** ** [init_default_words] and [init_admin_user] *)

Definition set_words (ws : list WordRow) (w : World) : World :=
  {| words := ws; user_word_progress := user_word_progress w;
     study_records := study_records w; current_user_id := current_user_id w;
     clock := clock w; ticks := ticks w |}.

(** [INSERT INTO words (word, pronunciation, meaning, level)]: the id is
    the next rowid and [created_at] its default, CURRENT_TIMESTAMP. *)
Definition insert_word (entry : string * string * string * string) : MA unit :=
  let '(word, pronunciation, meaning, level) := entry in
  created_at ← lift read_clock;
  modifyA (λ db,
    let id := next_rowid (words_seq db) (w_id <$> words (world db)) in
    {| world := set_words
         (words (world db) ++
            [{| w_id := id; w_word := word; w_pronunciation := pronunciation;
                w_meaning := meaning; w_level := level;
                w_created_at := created_at |}]) (world db);
       users := users db; users_seq := users_seq db; words_seq := id;
       system_state := system_state db |}).

(** [for word, pronunciation, meaning, level in default_words: ...]. *)
Fixpoint insert_words (l : list (string * string * string * string)) : MA unit :=
  match l with
  | [] => mret ()
  | entry :: rest => _ ← insert_word entry; insert_words rest
  end.

(** [init_default_words]; the literal list of the source is the argument
    [default_words]. *)
Definition init_default_words
    (default_words : list (string * string * string * string)) : MA unit :=
  n ← getsA (λ db, Z.of_nat (length (words (world db))));
  if 0 <? n then mret () else insert_words default_words.

(** [init_admin_user] calls itself after it has created the user; [fuel]
    bounds the depth of the calls and None is returned when it runs out. *)
Fixpoint init_admin_user `{Sha256} (fuel : nat)
    (default_words : list (string * string * string * string))
    : MA (option unit) :=
  match fuel with
  | O => mret None
  | S fuel' =>
    found ← getsA (λ db,
      List.find (λ u, String.eqb (u_username u) "admin") (users db));
    match found with
    | Some _ => mret (Some ())
    | None =>
      let password_hash := hash_password "admin123" in
      created_at ← lift read_clock;
      user_id ← getsA (λ db, next_rowid (users_seq db) (u_id <$> users db));
      _ ← modifyA (λ db,
        {| world := world db;
           users := users db ++
             [{| u_id := user_id; u_username := "admin";
                 u_password_hash := password_hash;
                 u_email := "admin@wordmemory.com";
                 u_created_at := created_at; u_last_login := None |}];
           users_seq := user_id; words_seq := words_seq db;
           system_state := system_state db |});
      _ ← init_default_words default_words;
      init_admin_user fuel' default_words
    end
  end.

(** The four columns [init_default_words] fills. *)
Definition word_entry (wr : WordRow) : string * string * string * string :=
  (w_word wr, w_pronunciation wr, w_meaning wr, w_level wr).

(** A fresh object: no rows, nobody logged in. *)
Definition db_empty : UserDatabase :=
  {| world := mk_world [] ∅ None (λ n, 1000 + Z.of_nat n);
     users := []; users_seq := 0; words_seq := 0; system_state := ∅ |}.

Definition sample_words : list (string * string * string * string) :=
  [("cat", "/k/", "c", "a"); ("dog", "/d/", "d", "a")].

(** ** The run of [update_word_progress] *)

Lemma compute_next_review_run ok d m c w :
  compute_next_review ok d m c w =
  ((clock w (ticks w) + review_interval ok d m c, final_mastery m c),
   snd (read_clock w)).
Proof.
  unfold review_interval, final_mastery, compute_next_review, eval.
  repeat case_match; reflexivity.
Qed.

Lemma update_word_progress_run w uid word_id ok mode :
  logged_in w uid →
  exec (update_word_progress word_id ok mode) w =
  {| words := words w;
     user_word_progress :=
       <[(uid, word_id) :=
           written_row ok (stored_state uid word_id w)
             (clock w (ticks w)) (clock w (S (ticks w)))]> (user_word_progress w);
     study_records := study_records w ++
       [{| sr_user_id := uid; sr_word_id := word_id;
           sr_study_date := clock w (S (S (ticks w)));
           sr_is_correct := ok; sr_study_mode := mode |}];
     current_user_id := current_user_id w;
     clock := clock w; ticks := S (S (S (ticks w))) |}.
Proof.
  unfold logged_in. intros Hu.
  unfold exec, update_word_progress, mbind, M_bind, gets. simpl.
  rewrite Hu. unfold stored_state, eval, written_row. simpl.
  destruct (update_statistics ok _) as [[[[rc cc] d] m] c].
  rewrite compute_next_review_run. reflexivity.
Qed.

Lemma progress_after_eq w uid word_id ok mode :
  logged_in w uid →
  progress_after uid word_id ok mode w =
  Some (written_row ok (stored_state uid word_id w)
          (clock w (ticks w)) (clock w (S (ticks w)))).
Proof.
  intros Hu. unfold progress_after.
  rewrite (update_word_progress_run _ _ _ _ _ Hu). simpl.
  apply lookup_insert_eq.
Qed.

Lemma stored_state_some w uid word_id r :
  user_word_progress w !! (uid, word_id) = Some r →
  stored_state uid word_id w =
  (uwp_review_count r, uwp_correct_count r, uwp_difficulty r,
   uwp_mastery_level r, uwp_consecutive_correct r).
Proof. intros H. unfold stored_state, eval, select_progress, gets. simpl. by rewrite H. Qed.

Lemma stored_state_none w uid word_id :
  user_word_progress w !! (uid, word_id) = None →
  stored_state uid word_id w = (0, 0, 1, 0, 0).
Proof. intros H. unfold stored_state, eval, select_progress, gets. simpl. by rewrite H. Qed.

Lemma review_interval_unfold ok d m c :
  review_interval ok d m c =
  if 3 <=? c then timedelta 365 0 0
  else if ok then
    if m <=? 1 then timedelta 0 0 20
    else if m =? 2 then timedelta 0 1 0
    else if m =? 3 then timedelta 0 8 0
    else if m =? 4 then timedelta 1 0 0
    else timedelta 2 0 0
  else
    if 4 <=? d then timedelta 0 0 5
    else if 3 <=? d then timedelta 0 0 10
    else timedelta 0 0 15.
Proof.
  unfold review_interval, compute_next_review, eval.
  repeat case_match; reflexivity.
Qed.

(** The units of the intervals, in microseconds. *)
Example timedelta_units :
  timedelta 0 0 1 = 60000000 ∧ timedelta 0 1 0 = 60 * timedelta 0 0 1 ∧
  timedelta 1 0 0 = 24 * timedelta 0 1 0 ∧ timedelta 365 0 0 = 365 * timedelta 1 0 0.
Proof. repeat split. Qed.

(** ** The counters *)

(** The counter block alone follows the transition rules: the values it
    leaves are the ones [compute_next_review] then reads. *)
Lemma update_statistics_rules ok rc cc d m c :
  update_statistics ok (rc, cc, d, m, c) =
  if ok then (rc + 1, cc + 1, Z.max 1 (d - 1), Z.min 5 (m + 1), c + 1)
  else (rc + 1, cc, Z.min 5 (d + 1), Z.max 0 (m - 1), 0).
Proof. reflexivity. Qed.

Ltac open_written_row :=
  unfold written_row, final_mastery; rewrite ?update_statistics_rules;
  rewrite ?review_interval_unfold; simpl.

(** C1 (as amended): the row written by [update_word_progress] has
    review_count + 1; after a correct answer correct_count + 1,
    consecutive_correct + 1, difficulty max(1, d - 1), and mastery level
    min(5, m + 1) unless the new streak reaches 3, in which case it is 5;
    after an incorrect answer correct_count unchanged, streak 0, mastery
    max(0, m - 1), difficulty min(5, d + 1).  The starting values are the
    stored row's, or 0, 0, 1, 0, 0 when there is none. *)
Theorem advance_counters w uid word_id ok mode rc cc d m c :
  logged_in w uid →
  stored_state uid word_id w = (rc, cc, d, m, c) →
  ∃ r', progress_after uid word_id ok mode w = Some r' ∧
    uwp_review_count r' = rc + 1 ∧
    (ok = true →
       uwp_correct_count r' = cc + 1 ∧
       uwp_consecutive_correct r' = c + 1 ∧
       uwp_difficulty r' = Z.max 1 (d - 1) ∧
       (c + 1 < 3 → uwp_mastery_level r' = Z.min 5 (m + 1)) ∧
       (3 ≤ c + 1 → uwp_mastery_level r' = 5)) ∧
    (ok = false →
       uwp_correct_count r' = cc ∧
       uwp_consecutive_correct r' = 0 ∧
       uwp_mastery_level r' = Z.max 0 (m - 1) ∧
       uwp_difficulty r' = Z.min 5 (d + 1)).
Proof.
  intros Hu Hs. eexists. split; [by apply progress_after_eq|].
  rewrite Hs. open_written_row.
  destruct ok; simpl.
  - split; [done|]. split; [|done]. intros _. repeat split.
    + intros Hc. apply Z.leb_gt in Hc. by rewrite Hc.
    + intros Hc. apply Z.leb_le in Hc. by rewrite Hc.
  - repeat split; done.
Qed.

Lemma advance_counters_witness :
  ∃ r', progress_after 1 7 true "spelling" world_streak2 = Some r' ∧
    uwp_review_count r' = 2 + 1 ∧
    (true = true →
       uwp_correct_count r' = 2 + 1 ∧
       uwp_consecutive_correct r' = 2 + 1 ∧
       uwp_difficulty r' = Z.max 1 (1 - 1) ∧
       (2 + 1 < 3 → uwp_mastery_level r' = Z.min 5 (2 + 1)) ∧
       (3 ≤ 2 + 1 → uwp_mastery_level r' = 5)) ∧
    (true = false →
       uwp_correct_count r' = 2 ∧
       uwp_consecutive_correct r' = 0 ∧
       uwp_mastery_level r' = Z.max 0 (2 - 1) ∧
       uwp_difficulty r' = Z.min 5 (1 + 1)).
Proof.
  apply (advance_counters world_streak2 1 7 true "spelling" 2 2 1 2 2);
    vm_compute; reflexivity.
Defined.

(** C1 as stated fails on a streak that reaches 3: from mastery level 2
    and streak 2 a correct answer stores mastery level 5, not
    min(5, 2 + 1) = 3. *)
Lemma advance_counters_counterexample :
  user_word_progress world_streak2 !! (1, 7) = Some (mk_progress 2 2 1 2 2 (Some 50)) ∧
  uwp_mastery_level <$> progress_after 1 7 true "spelling" world_streak2 = Some 5 ∧
  Z.min 5 (2 + 1) = 3.
Proof. vm_compute. repeat split. Qed.

(** ** The interval policy *)

(** C2: with [now] the clock reading taken when the interval is computed
    and (rc, cc, d, m, c) the counters after the counter block, the stored
    next review date is now + 365 days and the mastery level 5 when
    c >= 3; otherwise, after a correct answer, now + 20 minutes for
    m <= 1, 1 hour for m = 2, 8 hours for m = 3, 1 day for m = 4, 2 days
    for m >= 5; after an incorrect answer, now + 5 minutes for d >= 4,
    10 minutes for d = 3, 15 minutes otherwise. *)
Theorem next_review_policy w uid word_id ok mode rc cc d m c :
  logged_in w uid →
  update_statistics ok (stored_state uid word_id w) = (rc, cc, d, m, c) →
  ∃ r', progress_after uid word_id ok mode w = Some r' ∧
    let now := clock w (ticks w) in
    let due := uwp_next_review_date r' in
    (3 ≤ c → due = Some (now + timedelta 365 0 0) ∧ uwp_mastery_level r' = 5) ∧
    (c < 3 → ok = true →
       (m ≤ 1 → due = Some (now + timedelta 0 0 20)) ∧
       (m = 2 → due = Some (now + timedelta 0 1 0)) ∧
       (m = 3 → due = Some (now + timedelta 0 8 0)) ∧
       (m = 4 → due = Some (now + timedelta 1 0 0)) ∧
       (5 ≤ m → due = Some (now + timedelta 2 0 0))) ∧
    (c < 3 → ok = false →
       (4 ≤ d → due = Some (now + timedelta 0 0 5)) ∧
       (d = 3 → due = Some (now + timedelta 0 0 10)) ∧
       (d < 3 → due = Some (now + timedelta 0 0 15))).
Proof.
  intros Hu Hs. eexists. split; [by apply progress_after_eq|].
  unfold written_row. rewrite Hs. unfold final_mastery. simpl.
  rewrite review_interval_unfold.
  split; [|split].
  - intros Hc. apply Z.leb_le in Hc. by rewrite Hc.
  - intros Hc ->. apply Z.leb_gt in Hc. rewrite Hc.
    repeat split; intros Hm; repeat case_match; try reflexivity; lia.
  - intros Hc ->. apply Z.leb_gt in Hc. rewrite Hc.
    repeat split; intros Hd; repeat case_match; try reflexivity; lia.
Qed.

Lemma next_review_policy_witness :
  ∃ r', progress_after 1 7 true "spelling" world_streak2 = Some r' ∧
    let now := clock world_streak2 (ticks world_streak2) in
    let due := uwp_next_review_date r' in
    (3 ≤ 3 → due = Some (now + timedelta 365 0 0) ∧ uwp_mastery_level r' = 5) ∧
    (3 < 3 → true = true →
       (3 ≤ 1 → due = Some (now + timedelta 0 0 20)) ∧
       (3 = 2 → due = Some (now + timedelta 0 1 0)) ∧
       (3 = 3 → due = Some (now + timedelta 0 8 0)) ∧
       (3 = 4 → due = Some (now + timedelta 1 0 0)) ∧
       (5 ≤ 3 → due = Some (now + timedelta 2 0 0))) ∧
    (3 < 3 → true = false →
       (4 ≤ 1 → due = Some (now + timedelta 0 0 5)) ∧
       (1 = 3 → due = Some (now + timedelta 0 0 10)) ∧
       (1 < 3 → due = Some (now + timedelta 0 0 15))).
Proof.
  apply (next_review_policy world_streak2 1 7 true "spelling" 3 3 1 3 3);
    vm_compute; reflexivity.
Defined.

(** ** Range invariants *)

(** C5: from counters that satisfy the field invariants, the row written
    has 0 <= mastery_level <= 5, 1 <= difficulty <= 5,
    consecutive_correct >= 0 and correct_count <= review_count. *)
Theorem advance_preserves_ranges w uid word_id ok mode :
  logged_in w uid →
  field_invariants (stored_state uid word_id w) →
  ∃ r', progress_after uid word_id ok mode w = Some r' ∧
    0 ≤ uwp_mastery_level r' ≤ 5 ∧
    1 ≤ uwp_difficulty r' ≤ 5 ∧
    0 ≤ uwp_consecutive_correct r' ∧
    uwp_correct_count r' ≤ uwp_review_count r'.
Proof.
  intros Hu Hinv. eexists. split; [by apply progress_after_eq|].
  destruct (stored_state uid word_id w) as [[[[rc cc] d] m] c].
  unfold field_invariants in Hinv. open_written_row.
  destruct ok; simpl; repeat case_match; lia.
Qed.

Lemma advance_preserves_ranges_witness :
  ∃ r', progress_after 1 7 false "meaning" world_streak2 = Some r' ∧
    0 ≤ uwp_mastery_level r' ≤ 5 ∧
    1 ≤ uwp_difficulty r' ≤ 5 ∧
    0 ≤ uwp_consecutive_correct r' ∧
    uwp_correct_count r' ≤ uwp_review_count r'.
Proof.
  apply (advance_preserves_ranges world_streak2 1 7 false "meaning").
  - reflexivity.
  - vm_compute. repeat split; discriminate.
Defined.

(** ** No validation *)

(** C7 (as amended): [update_word_progress] does not validate the field
    invariants.  For every stored row whose counters are SQLite integers
    with review_count, correct_count and consecutive_correct below
    2^63 - 1, whether it satisfies the field invariants or not, it writes
    an updated row that SQLite can store, with review_count + 1, and
    appends one study record; [min] and [max] bound one side of each
    range: mastery level <= 5 and difficulty >= 1 after a correct answer,
    mastery level >= 0 and difficulty <= 5 after an incorrect one. *)
Theorem advance_never_rejects w uid word_id ok mode r :
  logged_in w uid →
  user_word_progress w !! (uid, word_id) = Some r →
  row_fits r →
  uwp_review_count r < 2 ^ 63 - 1 →
  uwp_correct_count r < 2 ^ 63 - 1 →
  uwp_consecutive_correct r < 2 ^ 63 - 1 →
  ∃ r', progress_after uid word_id ok mode w = Some r' ∧
    row_fits r' ∧
    uwp_review_count r' = uwp_review_count r + 1 ∧
    (ok = true → uwp_mastery_level r' ≤ 5 ∧ 1 ≤ uwp_difficulty r') ∧
    (ok = false → 0 ≤ uwp_mastery_level r' ∧ uwp_difficulty r' ≤ 5) ∧
    length (study_records (exec (update_word_progress word_id ok mode) w)) =
      S (length (study_records w)).
Proof.
  intros Hu Hr Hfit Hrc Hcc Hc. eexists. split; [by apply progress_after_eq|].
  rewrite (update_word_progress_run _ _ _ _ _ Hu).
  rewrite (stored_state_some _ _ _ _ Hr).
  unfold row_fits, sqlite_integer in *. open_written_row.
  split; [|split; [by destruct ok|split; [|split]]].
  - destruct ok; simpl; repeat case_match; lia.
  - intros ->. simpl. case_match; lia.
  - intros ->. simpl. lia.
  - rewrite length_app. simpl. lia.
Qed.

Lemma advance_never_rejects_witness :
  ∃ r', progress_after 1 7 true "spelling" world_corrupt = Some r' ∧
    row_fits r' ∧
    uwp_review_count r' = uwp_review_count (mk_progress 1 4 0 9 0 (Some 50)) + 1 ∧
    (true = true → uwp_mastery_level r' ≤ 5 ∧ 1 ≤ uwp_difficulty r') ∧
    (true = false → 0 ≤ uwp_mastery_level r' ∧ uwp_difficulty r' ≤ 5) ∧
    length (study_records (exec (update_word_progress 7 true "spelling") world_corrupt)) =
      S (length (study_records world_corrupt)).
Proof.
  apply (advance_never_rejects world_corrupt 1 7 true "spelling").
  - reflexivity.
  - vm_compute. reflexivity.
  - unfold row_fits, sqlite_integer. simpl. lia.
  - simpl. lia.
  - simpl. lia.
  - simpl. lia.
Defined.

(** C7 as stated fails: the stored row (review_count 1, correct_count 4,
    difficulty 0, mastery level 9) violates the field invariants, and a
    correct answer is accepted: the row is replaced by one with the
    mastery level clamped to 5 and the difficulty to 1. *)
Lemma advance_validation_counterexample :
  user_word_progress world_corrupt !! (1, 7) = Some (mk_progress 1 4 0 9 0 (Some 50)) ∧
  ¬ valid_record (mk_progress 1 4 0 9 0 (Some 50)) ∧
  progress_after 1 7 true "spelling" world_corrupt =
    Some {| uwp_review_count := 2; uwp_correct_count := 5; uwp_difficulty := 1;
            uwp_last_review_date := Some 1001;
            uwp_next_review_date := Some (1000 + timedelta 2 0 0);
            uwp_mastery_level := 5; uwp_consecutive_correct := 1 |}.
Proof.
  split; [by vm_compute|]. split; [|by vm_compute].
  unfold valid_record, field_invariants. simpl. lia.
Qed.

(** ** The study mode *)

(** C9: two answers that differ only in the study mode leave the same
    progress table (hence the same row for the word), the same words and
    the same clock position; the study records they append differ in the
    mode alone. *)
Theorem study_mode_not_scheduled w word_id ok mode1 mode2 :
  let w1 := exec (update_word_progress word_id ok mode1) w in
  let w2 := exec (update_word_progress word_id ok mode2) w in
  user_word_progress w1 = user_word_progress w2 ∧
  words w1 = words w2 ∧
  ticks w1 = ticks w2 ∧
  without_mode <$> study_records w1 = without_mode <$> study_records w2.
Proof.
  simpl. destruct (truthy_id (current_user_id w)) as [uid|] eqn:Hu.
  - rewrite !(update_word_progress_run _ uid) by done. simpl.
    repeat split. by rewrite !fmap_app.
  - unfold exec, update_word_progress, mbind, M_bind, gets. simpl.
    by rewrite Hu.
Qed.

(** ** Nobody logged in *)

(** C10: with [current_user_id] unset, [get_words_for_review] returns the
    empty list and [update_word_progress] returns at once; neither changes
    the world. *)
Theorem logged_out_noop w limit level word_id ok mode :
  current_user_id w = None →
  get_words_for_review limit level w = ([], w) ∧
  update_word_progress word_id ok mode w = ((), w).
Proof.
  intros Hu.
  unfold get_words_for_review, update_word_progress, mbind, M_bind, gets.
  simpl. rewrite Hu. simpl. done.
Qed.

Lemma logged_out_noop_witness :
  get_words_for_review 10 None world_logged_out = ([], world_logged_out) ∧
  update_word_progress 1 true "spelling" world_logged_out = ((), world_logged_out).
Proof. apply (logged_out_noop world_logged_out 10 None 1 true "spelling"). reflexivity. Defined.

(** ** ORDER BY and LIMIT *)

Section Sorter.
Implicit Types (x y : JoinedRow) (l : list JoinedRow) (k : Z).

Lemma sorter_insert_perm x l : sorter_insert x l ≡ₚ x :: l.
Proof.
  induction l as [|y l IH]; simpl; [done|].
  case_match; [done|]. rewrite IH. apply Permutation_swap.
Qed.

Lemma order_by_perm l : order_by l ≡ₚ l.
Proof.
  induction l as [|x l IH]; simpl; [done|].
  by rewrite sorter_insert_perm, IH.
Qed.

Lemma sorter_insert_sorted x l :
  StronglySorted key_le l → StronglySorted key_le (sorter_insert x l).
Proof.
  induction 1 as [|y l Hs IH Hy]; simpl.
  - repeat constructor.
  - destruct (order_key x <=? order_key y) eqn:Hxy.
    + apply Z.leb_le in Hxy. constructor; [by constructor|].
      constructor; [done|].
      eapply Forall_impl; [exact Hy|]. unfold key_le. intros z Hz. simpl in *. lia.
    + apply Z.leb_gt in Hxy. constructor; [done|].
      rewrite sorter_insert_perm. constructor; [|done].
      unfold key_le. lia.
Qed.

Lemma order_by_sorted l : StronglySorted key_le (order_by l).
Proof.
  induction l as [|x l IH]; simpl; [constructor|].
  by apply sorter_insert_sorted.
Qed.

(** Rows with the same key keep their relative order. *)
Lemma sorter_insert_stable k x l :
  filter (λ j, order_key j = k) (sorter_insert x l) =
  filter (λ j, order_key j = k) (x :: l).
Proof.
  induction l as [|y l IH]; simpl; [done|].
  destruct (order_key x <=? order_key y) eqn:Hxy; [done|].
  apply Z.leb_gt in Hxy.
  destruct (decide (order_key x = k)) as [Hx|Hx].
  - rewrite (filter_cons_False _ y) by lia.
    rewrite IH. rewrite !(filter_cons_True _ x) by done.
    by rewrite (filter_cons_False _ y) by lia.
  - rewrite (filter_cons_False _ x) by done.
    rewrite !(filter_cons _ y). rewrite IH.
    by rewrite (filter_cons_False _ x) by done.
Qed.

Lemma order_by_stable k l :
  filter (λ j, order_key j = k) (order_by l) = filter (λ j, order_key j = k) l.
Proof.
  induction l as [|x l IH]; simpl; [done|].
  rewrite sorter_insert_stable, !filter_cons. by rewrite IH.
Qed.
End Sorter.

Lemma sql_limit_sublist {A} limit (l : list A) : sql_limit limit l `sublist_of` l.
Proof. unfold sql_limit. case_match; [done|apply sublist_take]. Qed.

Lemma sql_limit_length {A} limit (l : list A) :
  0 ≤ limit → (length (sql_limit limit l) ≤ Z.to_nat limit)%nat.
Proof.
  intros H. unfold sql_limit.
  destruct (limit <? 0) eqn:Hl; [apply Z.ltb_lt in Hl; lia|].
  rewrite length_take. lia.
Qed.

Lemma sql_limit_all {A} limit (l : list A) :
  limit < 0 ∨ (length l ≤ Z.to_nat limit)%nat → sql_limit limit l = l.
Proof.
  intros H. unfold sql_limit.
  destruct (limit <? 0) eqn:Hl; [done|]. apply Z.ltb_ge in Hl.
  apply take_ge. lia.
Qed.

Lemma filter_sublist_mono {A} (P : A → Prop) `{!∀ x, Decision (P x)} (l1 l2 : list A) :
  l1 `sublist_of` l2 → filter P l1 `sublist_of` filter P l2.
Proof.
  induction 1 as [|x l1 l2 _ IH|x l1 l2 _ IH]; [done| |].
  - rewrite !filter_cons. case_decide; [by apply sublist_skip|done].
  - rewrite filter_cons. case_decide; [by apply sublist_cons|done].
Qed.

Lemma sorted_sublist {A} (R : A → A → Prop) (l1 l2 : list A) :
  l1 `sublist_of` l2 → StronglySorted R l2 → StronglySorted R l1.
Proof.
  induction 1 as [|x l1 l2 Hsub IH|x l1 l2 Hsub IH]; intros Hs; [done| |].
  - apply StronglySorted_inv in Hs as [Hs Hx]. constructor; [by apply IH|].
    rewrite Forall_forall in Hx |- *. intros y Hy. apply Hx.
    by eapply elem_of_sublist.
  - apply StronglySorted_inv in Hs as [Hs _]. by apply IH.
Qed.

Lemma list_filter_bool {A} (f : A → bool) (l : list A) :
  List.filter f l = filter (λ x, f x = true) l.
Proof.
  induction l as [|x l IH]; simpl; [done|].
  rewrite filter_cons. destruct (f x) eqn:Hx; rewrite IH.
  - by rewrite decide_True.
  - by rewrite decide_False.
Qed.

(** ** The run of [get_words_for_review] *)

Lemma get_words_for_review_run w uid limit level :
  logged_in w uid →
  get_words_for_review limit level w =
  (select_columns <$> review_query uid (clock w (ticks w)) limit level w,
   snd (read_clock w)).
Proof.
  unfold logged_in. intros Hu.
  unfold get_words_for_review, mbind, M_bind, gets. simpl.
  rewrite Hu. reflexivity.
Qed.

(** The WHERE clause is the eligibility of the specification. *)
Lemma where_clause_eligible w uid now level wr :
  where_clause now level (wr, user_word_progress w !! (uid, w_id wr)) = true ↔
  item_eligible w uid now level wr.
Proof.
  unfold where_clause, item_eligible, next_review_date, consecutive_correct, is_due.
  simpl. rewrite !andb_true_iff.
  destruct (user_word_progress w !! (uid, w_id wr)) as [r|]; simpl.
  - destruct (uwp_next_review_date r) as [dd|], (truthy_level level) as [l|];
      rewrite ?Z.leb_le, ?Z.ltb_lt, ?String.eqb_eq; tauto.
  - destruct (truthy_level level) as [l|]; rewrite ?String.eqb_eq; tauto.
Qed.

Lemma review_query_elem w uid now limit level j :
  j ∈ review_query uid now limit level w →
  ∃ wr, wr ∈ words w ∧ j = (wr, user_word_progress w !! (uid, w_id wr)) ∧
        where_clause now level j = true.
Proof.
  unfold review_query. intros Hj.
  eapply elem_of_sublist in Hj; [|apply sql_limit_sublist].
  rewrite order_by_perm, list_filter_bool in Hj.
  apply list_elem_of_filter in Hj as [Hw Hj].
  unfold left_join in Hj. apply (list_elem_of_fmap_1 _) in Hj as (wr & -> & Hwr).
  eauto.
Qed.

Lemma eligible_count_filter w uid now level :
  length (List.filter (where_clause now level) (left_join uid w)) =
  eligible_count w uid now level.
Proof.
  unfold eligible_count, left_join.
  induction (words w) as [|wr ws IH]; simpl; [done|].
  rewrite filter_cons.
  destruct (decide (item_eligible w uid now level wr)) as [He|He].
  - apply where_clause_eligible in He as ->. simpl. by rewrite IH.
  - destruct (where_clause _ _ _) eqn:Hw; [|done].
    by apply where_clause_eligible in Hw.
Qed.

Lemma eligible_in_order w uid now level wr :
  wr ∈ words w →
  item_eligible w uid now level wr →
  (wr, user_word_progress w !! (uid, w_id wr)) ∈
    order_by (List.filter (where_clause now level) (left_join uid w)).
Proof.
  intros Hwr He.
  rewrite order_by_perm, list_filter_bool. apply list_elem_of_filter.
  split; [by apply where_clause_eligible|].
  unfold left_join.
  by apply (list_elem_of_fmap_2
    (λ wr0, (wr0, user_word_progress w !! (uid, w_id wr0)))).
Qed.

Lemma sorted_app_le {A} (R : A → A → Prop) (l1 l2 : list A) x y :
  StronglySorted R (l1 ++ l2) → x ∈ l1 → y ∈ l2 → R x y.
Proof.
  induction l1 as [|z l1 IH]; simpl; intros Hs Hx Hy.
  - by apply elem_of_nil in Hx.
  - apply StronglySorted_inv in Hs as [Hs Hz].
    apply elem_of_cons in Hx as [->|Hx]; [|by apply IH].
    rewrite Forall_forall in Hz. apply Hz, elem_of_app. by right.
Qed.

(** ** Selection *)

(** C3 (as amended): every returned item is eligible (due, streak below 3,
    of the category asked for when a non-empty one is given); the result
    is cut to the first [limit] eligible items of the order: it is the
    first [limit] rows of the result without a limit, and every eligible
    item that is cut has a sort key at least that of each returned one;
    so every eligible item is returned when there are at most [limit] of
    them (or the limit is negative, which is no limit); for a non-negative
    limit the result has at most [limit] items. *)
Theorem review_selection w uid limit level :
  logged_in w uid →
  let now := clock w (ticks w) in
  let result := eval (get_words_for_review limit level) w in
  (∀ row, row ∈ result →
     ∃ wr, wr ∈ words w ∧ row = review_row w uid wr ∧
           item_eligible w uid now level wr) ∧
  (limit < 0 ∨ (eligible_count w uid now level ≤ Z.to_nat limit)%nat →
     ∀ wr, wr ∈ words w → item_eligible w uid now level wr →
           review_row w uid wr ∈ result) ∧
  (0 ≤ limit → (length result ≤ Z.to_nat limit)%nat) ∧
  (0 ≤ limit →
     result = take (Z.to_nat limit) (eval (get_words_for_review (-1) level) w)) ∧
  (let rows := review_query uid now limit level w in
   result = select_columns <$> rows ∧
   ∀ j wr, j ∈ rows → wr ∈ words w → item_eligible w uid now level wr →
     (wr, user_word_progress w !! (uid, w_id wr)) ∉ rows →
     order_key j ≤ order_key (wr, user_word_progress w !! (uid, w_id wr))).
Proof.
  intros Hu now result. subst result. unfold eval.
  rewrite !(get_words_for_review_run _ _ _ _ Hu). simpl. fold now.
  split; [|split; [|split; [|split]]].
  - intros row Hrow.
    apply (list_elem_of_fmap_1 _) in Hrow as (j & -> & Hj).
    apply review_query_elem in Hj as (wr & Hwr & -> & Hw).
    exists wr. split; [done|]. split; [done|].
    by apply where_clause_eligible.
  - intros Hall wr Hwr He. unfold review_row.
    apply list_elem_of_fmap_2. unfold review_query.
    rewrite sql_limit_all.
    + by apply eligible_in_order.
    + by rewrite order_by_perm, eligible_count_filter.
  - intros Hl. rewrite length_fmap. by apply sql_limit_length.
  - intros Hl. unfold review_query, sql_limit.
    destruct (limit <? 0) eqn:Hneg; [apply Z.ltb_lt in Hneg; lia|].
    simpl. by rewrite fmap_take.
  - split; [done|].
    intros j wr Hj Hwr He Hcut.
    pose proof (eligible_in_order w uid now level wr Hwr He) as Hin.
    unfold review_query, sql_limit in Hj, Hcut.
    destruct (limit <? 0); [done|].
    rewrite <- (take_drop (Z.to_nat limit)) in Hin.
    apply elem_of_app in Hin as [Hin|Hin]; [done|].
    eapply (sorted_app_le key_le); [|exact Hj|exact Hin].
    rewrite take_drop. apply order_by_sorted.
Qed.

Lemma review_selection_witness :
  let w := world_two_fresh in
  let now := clock w (ticks w) in
  let result := eval (get_words_for_review 10 None) w in
  (∀ row, row ∈ result →
     ∃ wr, wr ∈ words w ∧ row = review_row w 1 wr ∧
           item_eligible w 1 now None wr) ∧
  (10 < 0 ∨ (eligible_count w 1 now None ≤ Z.to_nat 10)%nat →
     ∀ wr, wr ∈ words w → item_eligible w 1 now None wr →
           review_row w 1 wr ∈ result) ∧
  (0 ≤ 10 → (length result ≤ Z.to_nat 10)%nat) ∧
  (0 ≤ 10 →
     result = take (Z.to_nat 10) (eval (get_words_for_review (-1) None) w)) ∧
  (let rows := review_query 1 now 10 None w in
   result = select_columns <$> rows ∧
   ∀ j wr, j ∈ rows → wr ∈ words w → item_eligible w 1 now None wr →
     (wr, user_word_progress w !! (1, w_id wr)) ∉ rows →
     order_key j ≤ order_key (wr, user_word_progress w !! (1, w_id wr))).
Proof. apply (review_selection world_two_fresh 1 10 None). reflexivity. Defined.

(** C3 as stated fails under the cap: with two eligible words and limit 1
    the second word is eligible and is not returned. *)
Lemma review_selection_counterexample :
  mk_word 2 0 "a" ∈ words world_two_fresh ∧
  item_eligible world_two_fresh 1 (clock world_two_fresh 0) None (mk_word 2 0 "a") ∧
  review_ids 1 None world_two_fresh = [1].
Proof.
  split; [|split].
  - unfold world_two_fresh, mk_world. simpl. apply list_elem_of_further, list_elem_of_here.
  - by vm_compute.
  - by vm_compute.
Qed.

(** ** Order *)

(** C4 (as amended): the returned rows are the projection of rows sorted
    in ascending order of the next review date, where an absent date is
    replaced by the creation time of the word (not by an earliest value);
    rows with equal keys come in the order of the words table. *)
Theorem review_order w uid limit level :
  logged_in w uid →
  let rows := review_query uid (clock w (ticks w)) limit level w in
  eval (get_words_for_review limit level) w = select_columns <$> rows ∧
  StronglySorted key_le rows ∧
  (∀ j, j ∈ rows →
     order_key j = match j.2 ≫= uwp_next_review_date with
                   | Some d => d
                   | None => w_created_at j.1
                   end) ∧
  (∀ k, (filter (λ j, order_key j = k) rows).*1 `sublist_of` words w).
Proof.
  intros Hu rows. subst rows. unfold eval.
  rewrite (get_words_for_review_run _ _ _ _ Hu). simpl.
  split; [done|]. split; [|split].
  - unfold review_query.
    eapply sorted_sublist; [apply sql_limit_sublist|apply order_by_sorted].
  - intros j _. reflexivity.
  - intros k. unfold review_query.
    transitivity ((filter (λ j, order_key j = k)
      (order_by (List.filter (where_clause (clock w (ticks w)) level)
                   (left_join uid w)))).*1).
    { apply fmap_sublist, filter_sublist_mono, sql_limit_sublist. }
    rewrite order_by_stable, list_filter_bool.
    transitivity ((left_join uid w).*1).
    { apply fmap_sublist. etransitivity; apply sublist_filter. }
    unfold left_join. rewrite <- list_fmap_compose.
    by rewrite list_fmap_id.
Qed.

Lemma review_order_witness :
  let w := world_late_word in
  let rows := review_query 1 (clock w (ticks w)) 10 None w in
  eval (get_words_for_review 10 None) w = select_columns <$> rows ∧
  StronglySorted key_le rows ∧
  (∀ j, j ∈ rows →
     order_key j = match j.2 ≫= uwp_next_review_date with
                   | Some d => d
                   | None => w_created_at j.1
                   end) ∧
  (∀ k, (filter (λ j, order_key j = k) rows).*1 `sublist_of` words w).
Proof. apply (review_order world_late_word 1 10 None). reflexivity. Defined.

(** C4 as stated fails: word 1 has no progress row (its due date is
    absent) and word 2 is due since 50; word 1 was created at 100, so the
    never-reviewed word 1 comes after word 2. *)
Lemma review_order_counterexample :
  user_word_progress world_late_word !! (1, 1) = None ∧
  uwp_next_review_date <$> user_word_progress world_late_word !! (1, 2) = Some (Some 50) ∧
  review_ids 10 None world_late_word = [2; 1].
Proof. by vm_compute. Qed.

(** ** Retirement *)

Lemma retired_not_selected w uid word_id limit level r :
  logged_in w uid →
  user_word_progress w !! (uid, word_id) = Some r →
  3 ≤ uwp_consecutive_correct r →
  word_id ∉ review_ids limit level w.
Proof.
  intros Hu Hr Hc Hin. unfold review_ids, eval in Hin.
  rewrite (get_words_for_review_run _ _ _ _ Hu) in Hin. simpl in Hin.
  apply (list_elem_of_fmap_1 _) in Hin as (row & -> & Hrow).
  apply (list_elem_of_fmap_1 _) in Hrow as (j & -> & Hj).
  apply review_query_elem in Hj as (wr & _ & -> & Hw).
  simpl in Hw. unfold where_clause, consecutive_correct in Hw. simpl in *.
  rewrite Hr in Hw. simpl in Hw.
  apply andb_true_iff in Hw as [Hw _]. apply andb_true_iff in Hw as [_ Hw].
  apply Z.ltb_lt in Hw. lia.
Qed.

(** C6: from a streak of at least 3, a correct answer stores streak + 1,
    mastery level 5 and the reading of the clock + 365 days as next review
    date; and whatever the clock says, the word is not returned by
    [get_words_for_review], before the answer and after it. *)
Theorem retirement_sustained w uid word_id mode r :
  logged_in w uid →
  user_word_progress w !! (uid, word_id) = Some r →
  3 ≤ uwp_consecutive_correct r →
  (∃ r', progress_after uid word_id true mode w = Some r' ∧
     uwp_consecutive_correct r' = uwp_consecutive_correct r + 1 ∧
     uwp_mastery_level r' = 5 ∧
     uwp_next_review_date r' = Some (clock w (ticks w) + timedelta 365 0 0)) ∧
  (∀ c n limit level, word_id ∉ review_ids limit level (with_clock c n w)) ∧
  (∀ c n limit level,
     word_id ∉ review_ids limit level
       (with_clock c n (exec (update_word_progress word_id true mode) w))).
Proof.
  intros Hu Hr Hc.
  assert (Hstreak : (3 <=? uwp_consecutive_correct r + 1) = true)
    by (apply Z.leb_le; lia).
  split; [|split].
  - eexists. split; [by apply progress_after_eq|].
    rewrite (stored_state_some _ _ _ _ Hr). open_written_row.
    by rewrite Hstreak.
  - intros c n limit level.
    by apply (retired_not_selected (with_clock c n w) uid word_id limit level r).
  - intros c n limit level.
    eapply (retired_not_selected _ uid word_id limit level).
    + unfold logged_in, with_clock. simpl.
      rewrite (update_word_progress_run _ _ _ _ _ Hu). exact Hu.
    + unfold with_clock. simpl.
      rewrite (update_word_progress_run _ _ _ _ _ Hu). simpl.
      apply lookup_insert_eq.
    + rewrite (stored_state_some _ _ _ _ Hr). open_written_row. lia.
Qed.

Lemma retirement_sustained_witness :
  let w := exec (update_word_progress 7 true "spelling") world_streak2 in
  (∃ r', progress_after 1 7 true "meaning" w = Some r' ∧
     uwp_consecutive_correct r' = 3 + 1 ∧
     uwp_mastery_level r' = 5 ∧
     uwp_next_review_date r' = Some (clock w (ticks w) + timedelta 365 0 0)) ∧
  (∀ c n limit level, 7 ∉ review_ids limit level (with_clock c n w)) ∧
  (∀ c n limit level,
     7 ∉ review_ids limit level
       (with_clock c n (exec (update_word_progress 7 true "meaning") w))).
Proof.
  apply (retirement_sustained
           (exec (update_word_progress 7 true "spelling") world_streak2) 1 7 "meaning"
           {| uwp_review_count := 3; uwp_correct_count := 3; uwp_difficulty := 1;
              uwp_last_review_date := Some 1001;
              uwp_next_review_date := Some (1000 + timedelta 365 0 0);
              uwp_mastery_level := 5; uwp_consecutive_correct := 3 |}).
  - reflexivity.
  - vm_compute. reflexivity.
  - simpl. lia.
Defined.

(** ** The clock *)

(** C8 (as amended): neither method takes the time as an argument; both
    read the clock themselves.  Their results are functions of the
    arguments, the tables, the logged-in learner and the clock readings
    taken: in two worlds that agree on the tables, the learner and the
    next three readings, [update_word_progress] leaves the same tables and
    [get_words_for_review] returns the same rows. *)
Theorem deterministic_given_clock w1 w2 word_id ok mode limit level :
  same_store w1 w2 →
  (∀ i, (i < 3)%nat → clock w1 (ticks w1 + i)%nat = clock w2 (ticks w2 + i)%nat) →
  same_store (exec (update_word_progress word_id ok mode) w1)
             (exec (update_word_progress word_id ok mode) w2) ∧
  eval (get_words_for_review limit level) w1 =
  eval (get_words_for_review limit level) w2.
Proof.
  intros (Hw & Hp & Hs & Hu) Hc.
  pose proof (Hc 0%nat ltac:(lia)) as H0.
  pose proof (Hc 1%nat ltac:(lia)) as H1.
  pose proof (Hc 2%nat ltac:(lia)) as H2.
  replace (ticks w1 + 0)%nat with (ticks w1) in H0 by lia.
  replace (ticks w2 + 0)%nat with (ticks w2) in H0 by lia.
  replace (ticks w1 + 1)%nat with (S (ticks w1)) in H1 by lia.
  replace (ticks w2 + 1)%nat with (S (ticks w2)) in H1 by lia.
  replace (ticks w1 + 2)%nat with (S (S (ticks w1))) in H2 by lia.
  replace (ticks w2 + 2)%nat with (S (S (ticks w2))) in H2 by lia.
  destruct (truthy_id (current_user_id w1)) as [uid|] eqn:Hu1.
  - assert (Hu2 : logged_in w2 uid) by (unfold logged_in; by rewrite <- Hu).
    assert (Hst : stored_state uid word_id w1 = stored_state uid word_id w2).
    { unfold stored_state, eval, select_progress, gets. simpl. by rewrite Hp. }
    split.
    + rewrite (update_word_progress_run w1 uid) by done.
      rewrite (update_word_progress_run w2 uid) by done.
      unfold same_store. simpl.
      by rewrite Hw, Hp, Hs, Hu, Hst, H0, H1, H2.
    + unfold eval.
      rewrite (get_words_for_review_run w1 uid) by done.
      rewrite (get_words_for_review_run w2 uid) by done.
      simpl. unfold review_query, left_join. by rewrite Hw, Hp, H0.
  - assert (Hu2 : truthy_id (current_user_id w2) = None) by (by rewrite <- Hu).
    unfold exec, eval, update_word_progress, get_words_for_review,
      mbind, M_bind, gets. simpl.
    rewrite Hu1, Hu2. simpl. done.
Qed.

Lemma deterministic_given_clock_witness :
  let w1 := world_streak2 in
  let w2 := with_clock (λ n, 1000 + Z.of_nat n - 5) 5 world_streak2 in
  same_store (exec (update_word_progress 7 true "spelling") w1)
             (exec (update_word_progress 7 true "spelling") w2) ∧
  eval (get_words_for_review 10 None) w1 = eval (get_words_for_review 10 None) w2.
Proof.
  apply (deterministic_given_clock world_streak2
           (with_clock (λ n, 1000 + Z.of_nat n - 5) 5 world_streak2)
           7 true "spelling" 10 None).
  - repeat split.
  - intros i Hi. simpl. lia.
Defined.

(** C8 as stated fails: the time is not an argument.  The same call in two
    worlds that differ in the clock alone stores different rows, and the
    same query returns different words. *)
Lemma clock_read_counterexample :
  same_store world_streak2 (with_clock (λ _, 5000) 0 world_streak2) ∧
  uwp_next_review_date <$> progress_after 1 7 true "spelling" world_streak2 =
    Some (Some (1000 + timedelta 365 0 0)) ∧
  uwp_next_review_date <$>
    progress_after 1 7 true "spelling" (with_clock (λ _, 5000) 0 world_streak2) =
    Some (Some (5000 + timedelta 365 0 0)) ∧
  same_store world_late_word (with_clock (λ _, 10) 0 world_late_word) ∧
  review_ids 10 None world_late_word = [2; 1] ∧
  review_ids 10 None (with_clock (λ _, 10) 0 world_late_word) = [1].
Proof. by vm_compute. Qed.

(** * Further properties of the scheduler *)

(** ** What an answer touches *)

Lemma exec_bind {A B} (m : M A) (f : A → M B) w :
  exec (m ≫= f) w = exec (f (eval m w)) (exec m w).
Proof. unfold exec, eval, mbind, M_bind. by destruct (m w). Qed.

Lemma logged_in_after w uid word_id ok mode :
  logged_in w uid →
  logged_in (exec (update_word_progress word_id ok mode) w) uid.
Proof.
  intros Hu. unfold logged_in.
  by rewrite (update_word_progress_run _ _ _ _ _ Hu).
Qed.

Lemma written_row_counters ok s now last :
  (uwp_review_count (written_row ok s now last),
   uwp_correct_count (written_row ok s now last),
   uwp_difficulty (written_row ok s now last),
   uwp_mastery_level (written_row ok s now last),
   uwp_consecutive_correct (written_row ok s now last)) = advance ok s.
Proof.
  unfold written_row, advance.
  by destruct (update_statistics ok s) as [[[[rc cc] d] m] c].
Qed.

Lemma stored_state_after w uid word_id ok mode :
  logged_in w uid →
  stored_state uid word_id (exec (update_word_progress word_id ok mode) w) =
  advance ok (stored_state uid word_id w).
Proof.
  intros Hu.
  erewrite stored_state_some; [apply written_row_counters|].
  by apply progress_after_eq.
Qed.

(** An answer replaces the row of (learner, word) and appends one study
    record carrying the learner, the word, the outcome and the mode; it
    leaves every other progress row, every earlier study record and the
    words alone. *)
Theorem update_word_progress_frame w uid word_id ok mode :
  logged_in w uid →
  let w' := exec (update_word_progress word_id ok mode) w in
  (∀ k, k ≠ (uid, word_id) → user_word_progress w' !! k = user_word_progress w !! k) ∧
  words w' = words w ∧
  current_user_id w' = current_user_id w ∧
  ∃ date, study_records w' = study_records w ++
    [{| sr_user_id := uid; sr_word_id := word_id; sr_study_date := date;
        sr_is_correct := ok; sr_study_mode := mode |}].
Proof.
  intros Hu. simpl. rewrite (update_word_progress_run _ _ _ _ _ Hu). simpl.
  split; [|eauto].
  intros k Hk. by apply lookup_insert_ne.
Qed.

Lemma update_word_progress_frame_witness :
  let w' := exec (update_word_progress 7 true "spelling") world_streak2 in
  (∀ k, k ≠ (1, 7) → user_word_progress w' !! k = user_word_progress world_streak2 !! k) ∧
  words w' = words world_streak2 ∧
  current_user_id w' = current_user_id world_streak2 ∧
  ∃ date, study_records w' = study_records world_streak2 ++
    [{| sr_user_id := 1; sr_word_id := 7; sr_study_date := date;
        sr_is_correct := true; sr_study_mode := "spelling" |}].
Proof. apply (update_word_progress_frame world_streak2 1 7 true "spelling"). reflexivity. Defined.

(** ** Runs of answers *)

Lemma answer_all_app word_id l1 l2 w :
  exec (answer_all word_id (l1 ++ l2)) w =
  exec (answer_all word_id l2) (exec (answer_all word_id l1) w).
Proof.
  revert w. induction l1 as [|[ok mode] l1 IH]; intros w; simpl; [done|].
  by rewrite !exec_bind, IH.
Qed.

Lemma answer_all_logged_in w uid word_id l :
  logged_in w uid → logged_in (exec (answer_all word_id l) w) uid.
Proof.
  revert w. induction l as [|[ok mode] l IH]; intros w Hu; simpl; [done|].
  rewrite exec_bind. by apply IH, logged_in_after.
Qed.

Lemma answer_all_state w uid word_id l :
  logged_in w uid →
  stored_state uid word_id (exec (answer_all word_id l) w) =
  fold_left (λ s a, advance a.1 s) l (stored_state uid word_id w).
Proof.
  revert w. induction l as [|[ok mode] l IH]; intros w Hu; simpl; [done|].
  rewrite exec_bind, IH by (by apply logged_in_after).
  by rewrite stored_state_after.
Qed.

Lemma answer_all_records w uid word_id l :
  logged_in w uid →
  length (study_records (exec (answer_all word_id l) w)) =
  (length (study_records w) + length l)%nat.
Proof.
  revert w. induction l as [|[ok mode] l IH]; intros w Hu; simpl.
  { unfold exec. simpl. lia. }
  rewrite exec_bind, IH by (by apply logged_in_after).
  rewrite (update_word_progress_run _ _ _ _ _ Hu). simpl.
  rewrite length_app. simpl. lia.
Qed.

Lemma count_correct_snoc l b :
  count_correct (l ++ [b]) = (count_correct l + (if b then 1 else 0))%nat.
Proof.
  unfold count_correct. rewrite filter_app, length_app.
  by destruct b.
Qed.

Lemma trailing_correct_snoc l b :
  trailing_correct (l ++ [b]) = if b then S (trailing_correct l) else 0%nat.
Proof. unfold trailing_correct. rewrite reverse_snoc. by destruct b. Qed.

Lemma advance_run l rc cc d m c :
  ∃ d' m',
    fold_left (λ s (a : bool * string), advance a.1 s) l (rc, cc, d, m, c) =
    (rc + Z.of_nat (length l), cc + Z.of_nat (count_correct l.*1), d', m',
     if forallb id l.*1 then c + Z.of_nat (length l)
     else Z.of_nat (trailing_correct l.*1)).
Proof.
  induction l as [|[ok mode] l IH] using rev_ind.
  - exists d, m. unfold count_correct. simpl. by rewrite !Z.add_0_r.
  - destruct IH as (d' & m' & IH).
    rewrite fold_left_app, IH, fmap_app, length_app.
    change ([(ok, mode)].*1) with [ok].
    rewrite count_correct_snoc, trailing_correct_snoc, forallb_app.
    simpl. unfold advance. rewrite update_statistics_rules.
    replace (rc + Z.of_nat (length l + 1)) with (rc + Z.of_nat (length l) + 1) by lia.
    destruct ok; simpl.
    + rewrite andb_true_r.
      replace (cc + Z.of_nat (count_correct l.*1 + 1))
        with (cc + Z.of_nat (count_correct l.*1) + 1) by lia.
      destruct (forallb id l.*1).
      * replace (c + Z.of_nat (length l + 1)) with (c + Z.of_nat (length l) + 1) by lia.
        by eexists _, _.
      * replace (Z.of_nat (S (trailing_correct l.*1)))
          with (Z.of_nat (trailing_correct l.*1) + 1) by lia.
        by eexists _, _.
    + rewrite andb_false_r.
      replace (cc + Z.of_nat (count_correct l.*1 + 0))
        with (cc + Z.of_nat (count_correct l.*1)) by lia.
      by eexists _, _.
Qed.

(** After a run of answers on one word, review_count has grown by the
    number of answers and correct_count by the number of correct ones;
    consecutive_correct is the length of the run of correct answers that
    ends the sequence (added to the stored streak when every answer was
    correct); one study record was written per answer. *)
Theorem answer_run_counters w uid word_id answers rc cc d m c :
  logged_in w uid →
  stored_state uid word_id w = (rc, cc, d, m, c) →
  let w' := exec (answer_all word_id answers) w in
  let oks := answers.*1 in
  (∃ d' m', stored_state uid word_id w' =
     (rc + Z.of_nat (length answers), cc + Z.of_nat (count_correct oks), d', m',
      if forallb id oks then c + Z.of_nat (length answers)
      else Z.of_nat (trailing_correct oks))) ∧
  length (study_records w') = (length (study_records w) + length answers)%nat.
Proof.
  intros Hu Hs. simpl. split.
  - rewrite (answer_all_state _ _ _ _ Hu), Hs. apply advance_run.
  - by apply (answer_all_records _ uid).
Qed.

Lemma answer_run_counters_witness :
  let answers := [(true, "spelling"); (false, "meaning"); (true, "meaning")] in
  let w' := exec (answer_all 7 answers) world_streak2 in
  let oks := answers.*1 in
  (∃ d' m', stored_state 1 7 w' =
     (2 + Z.of_nat (length answers), 2 + Z.of_nat (count_correct oks), d', m',
      if forallb id oks then 2 + Z.of_nat (length answers)
      else Z.of_nat (trailing_correct oks))) ∧
  length (study_records w') = (length (study_records world_streak2) + length answers)%nat.
Proof.
  apply (answer_run_counters world_streak2 1 7
           [(true, "spelling"); (false, "meaning"); (true, "meaning")] 2 2 1 2 2);
    vm_compute; reflexivity.
Defined.


Lemma clock_after w uid word_id ok mode :
  logged_in w uid →
  clock (exec (update_word_progress word_id ok mode) w) = clock w ∧
  ticks (exec (update_word_progress word_id ok mode) w) = (ticks w + 3)%nat.
Proof.
  intros Hu. rewrite (update_word_progress_run _ _ _ _ _ Hu). simpl.
  split; [done|lia].
Qed.

(** ** Retirement and its end *)

(** Three correct answers in a row retire a word whatever its history, as
    long as the stored streak is not negative: the row then has a streak
    of at least 3, mastery level 5 and a next review date 365 days after
    the third answer, and the word is no longer returned for review,
    whatever the clock says. *)
Theorem three_correct_retire w uid word_id mode1 mode2 mode3 rc cc d m c :
  logged_in w uid →
  stored_state uid word_id w = (rc, cc, d, m, c) →
  0 ≤ c →
  let w' := exec (answer_all word_id
                    [(true, mode1); (true, mode2); (true, mode3)]) w in
  (∃ r', user_word_progress w' !! (uid, word_id) = Some r' ∧
     uwp_consecutive_correct r' = c + 3 ∧
     uwp_mastery_level r' = 5 ∧
     uwp_next_review_date r' =
       Some (clock w (ticks w + 6)%nat + timedelta 365 0 0)) ∧
  (∀ clk n limit level, word_id ∉ review_ids limit level (with_clock clk n w')).
Proof.
  intros Hu Hs Hc. simpl. rewrite !exec_bind.
  set (w1 := exec (update_word_progress word_id true mode1) w).
  set (w2 := exec (update_word_progress word_id true mode2) w1).
  assert (Hu1 : logged_in w1 uid) by (by apply logged_in_after).
  assert (Hu2 : logged_in w2 uid) by (by apply logged_in_after).
  assert (Hs2 : stored_state uid word_id w2 =
                advance true (advance true (rc, cc, d, m, c))).
  { unfold w2, w1. by rewrite !stored_state_after, Hs. }
  destruct (clock_after w uid word_id true mode1 Hu) as [Hc1 Ht1].
  destruct (clock_after w1 uid word_id true mode2 Hu1) as [Hc2 Ht2].
  fold w1 in Hc1, Ht1. fold w2 in Hc2, Ht2.
  pose proof (progress_after_eq w2 uid word_id true mode3 Hu2) as Hrow.
  unfold progress_after in Hrow. unfold exec at 1. simpl.
  assert (Hstreak : (3 <=? c + 1 + 1 + 1) = true) by (apply Z.leb_le; lia).
  assert (Hfinal : ∃ r', user_word_progress
            (exec (update_word_progress word_id true mode3) w2) !! (uid, word_id) = Some r' ∧
            uwp_consecutive_correct r' = c + 3 ∧ uwp_mastery_level r' = 5 ∧
            uwp_next_review_date r' =
              Some (clock w (ticks w + 6)%nat + timedelta 365 0 0)).
  { eexists. split; [exact Hrow|].
    rewrite Hs2. unfold advance. rewrite !update_statistics_rules. simpl.
    open_written_row. rewrite Hstreak.
    rewrite Hc2, Hc1, Ht2, Ht1.
    replace (ticks w + 3 + 3)%nat with (ticks w + 6)%nat by lia.
    split; [lia|done]. }
  split; [exact Hfinal|].
  destruct Hfinal as (r' & Hr' & Hc' & _).
  intros clk n limit level.
  eapply (retired_not_selected _ uid word_id limit level r').
  - unfold logged_in, with_clock. simpl.
    by apply logged_in_after.
  - exact Hr'.
  - lia.
Qed.

Lemma three_correct_retire_witness :
  let w := world_late_word in
  let w' := exec (answer_all 2 [(true, "spelling"); (true, "meaning"); (true, "spelling")]) w in
  (∃ r', user_word_progress w' !! (1, 2) = Some r' ∧
     uwp_consecutive_correct r' = 0 + 3 ∧
     uwp_mastery_level r' = 5 ∧
     uwp_next_review_date r' =
       Some (clock w (ticks w + 6)%nat + timedelta 365 0 0)) ∧
  (∀ clk n limit level, 2 ∉ review_ids limit level (with_clock clk n w')).
Proof.
  apply (three_correct_retire world_late_word 1 2 "spelling" "meaning" "spelling" 1 0 2 0 0).
  - reflexivity.
  - vm_compute. reflexivity.
  - lia.
Defined.

Lemma review_ids_elem w uid word_id limit level :
  logged_in w uid →
  word_id ∈ review_ids limit level w →
  ∃ wr, wr ∈ words w ∧ w_id wr = word_id ∧
    where_clause (clock w (ticks w)) level
      (wr, user_word_progress w !! (uid, word_id)) = true.
Proof.
  intros Hu Hin. unfold review_ids, eval in Hin.
  rewrite (get_words_for_review_run _ _ _ _ Hu) in Hin. simpl in Hin.
  apply (list_elem_of_fmap_1 _) in Hin as (row & -> & Hrow).
  apply (list_elem_of_fmap_1 _) in Hrow as (j & -> & Hj).
  apply review_query_elem in Hj as (wr & Hwr & -> & Hw).
  exists wr. by simpl.
Qed.

Lemma not_due_not_selected w uid word_id limit level r due :
  logged_in w uid →
  user_word_progress w !! (uid, word_id) = Some r →
  uwp_next_review_date r = Some due →
  clock w (ticks w) < due →
  word_id ∉ review_ids limit level w.
Proof.
  intros Hu Hr Hd Hlt Hin.
  apply (review_ids_elem _ uid) in Hin as (wr & _ & _ & Hw); [|done].
  unfold where_clause, next_review_date in Hw. simpl in Hw.
  rewrite Hr in Hw. simpl in Hw. rewrite Hd in Hw.
  apply andb_true_iff in Hw as [Hw _]. apply andb_true_iff in Hw as [Hw _].
  apply Z.leb_le in Hw. lia.
Qed.

Lemma review_interval_bounds ok d m c :
  timedelta 0 0 5 ≤ review_interval ok d m c ≤ timedelta 365 0 0.
Proof.
  rewrite review_interval_unfold. unfold timedelta.
  repeat case_match; lia.
Qed.

(** Every answer schedules the next review between 5 minutes and 365 days
    after the clock reading it takes, so a word that was just answered is
    not returned for review as long as the clock shows less than 5 minutes
    more. *)
Theorem answered_word_rests w uid word_id ok mode :
  logged_in w uid →
  let now := clock w (ticks w) in
  let w' := exec (update_word_progress word_id ok mode) w in
  (∃ r' due, user_word_progress w' !! (uid, word_id) = Some r' ∧
     uwp_next_review_date r' = Some due ∧
     now + timedelta 0 0 5 ≤ due ≤ now + timedelta 365 0 0) ∧
  (∀ clk n limit level,
     clk n < now + timedelta 0 0 5 →
     word_id ∉ review_ids limit level (with_clock clk n w')).
Proof.
  intros Hu now w'.
  pose proof (progress_after_eq w uid word_id ok mode Hu) as Hrow.
  unfold progress_after in Hrow. fold w' in Hrow.
  set (s := update_statistics ok (stored_state uid word_id w)).
  assert (Hdue : ∃ due,
    uwp_next_review_date (written_row ok (stored_state uid word_id w)
                            (clock w (ticks w)) (clock w (S (ticks w)))) = Some due ∧
    now + timedelta 0 0 5 ≤ due ≤ now + timedelta 365 0 0).
  { unfold written_row. fold s. destruct s as [[[[rc cc] d] m] c]. simpl.
    eexists. split; [done|].
    pose proof (review_interval_bounds ok d m c). unfold now. lia. }
  destruct Hdue as (due & Hdue & Hb).
  split; [eauto|].
  intros clk n limit level Hclk.
  eapply (not_due_not_selected _ uid word_id limit level _ due).
  - unfold logged_in, with_clock. simpl. by apply logged_in_after.
  - exact Hrow.
  - exact Hdue.
  - simpl. lia.
Qed.

Lemma answered_word_rests_witness :
  let w := world_late_word in
  let now := clock w (ticks w) in
  let w' := exec (update_word_progress 2 false "meaning") w in
  (∃ r' due, user_word_progress w' !! (1, 2) = Some r' ∧
     uwp_next_review_date r' = Some due ∧
     now + timedelta 0 0 5 ≤ due ≤ now + timedelta 365 0 0) ∧
  (∀ clk n limit level,
     clk n < now + timedelta 0 0 5 →
     2 ∉ review_ids limit level (with_clock clk n w')).
Proof. apply (answered_word_rests world_late_word 1 2 false "meaning"). reflexivity. Defined.


Lemma eligible_selected w uid limit level wr :
  logged_in w uid →
  limit < 0 ∨ (eligible_count w uid (clock w (ticks w)) level ≤ Z.to_nat limit)%nat →
  wr ∈ words w →
  item_eligible w uid (clock w (ticks w)) level wr →
  review_row w uid wr ∈ eval (get_words_for_review limit level) w.
Proof.
  intros Hu Hall Hwr He. unfold eval.
  rewrite (get_words_for_review_run _ _ _ _ Hu). simpl.
  unfold review_row. apply list_elem_of_fmap_2. unfold review_query.
  rewrite sql_limit_all.
  - rewrite order_by_perm, list_filter_bool. apply list_elem_of_filter.
    split; [by apply where_clause_eligible|].
    unfold left_join.
    by apply (list_elem_of_fmap_2
      (λ wr0, (wr0, user_word_progress w !! (uid, w_id wr0)))).
  - by rewrite order_by_perm, eligible_count_filter.
Qed.

Lemma relapse_interval_le d m :
  review_interval false d m 0 ≤ timedelta 0 0 15.
Proof.
  rewrite review_interval_unfold. unfold timedelta. simpl.
  repeat case_match; lia.
Qed.

(** An incorrect answer brings any word back, retired or not: its streak
    is 0 and its next review date at most 15 minutes after the reading
    taken, so once the clock shows 15 minutes more the word is returned
    for review whenever the limit leaves room for every eligible word and
    the level asked for, if any, is the word's. *)
Theorem incorrect_answer_reactivates w uid wr mode :
  logged_in w uid →
  wr ∈ words w →
  let now := clock w (ticks w) in
  let w' := exec (update_word_progress (w_id wr) false mode) w in
  ∀ clk n limit level,
    now + timedelta 0 0 15 ≤ clk n →
    limit < 0 ∨
      (eligible_count (with_clock clk n w') uid (clk n) level ≤ Z.to_nat limit)%nat →
    (∀ l, truthy_level level = Some l → w_level wr = l) →
    review_row w' uid wr ∈
      eval (get_words_for_review limit level) (with_clock clk n w').
Proof.
  intros Hu Hwr now w' clk n limit level Hclk Hroom Hlevel.
  pose proof (progress_after_eq w uid (w_id wr) false mode Hu) as Hrow.
  unfold progress_after in Hrow. fold w' in Hrow.
  assert (Hu' : logged_in (with_clock clk n w') uid).
  { unfold logged_in, with_clock. simpl. by apply logged_in_after. }
  apply (eligible_selected (with_clock clk n w') uid limit level wr Hu' Hroom).
  - unfold with_clock, w'. simpl.
    by rewrite (update_word_progress_run _ _ _ _ _ Hu).
  - unfold item_eligible. simpl. rewrite Hrow. split.
    + unfold written_row.
      destruct (stored_state uid (w_id wr) w) as [[[[rc cc] d] m] c].
      rewrite update_statistics_rules. simpl. unfold is_due.
      pose proof (relapse_interval_le (Z.min 5 (d + 1)) (Z.max 0 (m - 1))).
      unfold now in Hclk. lia.
    + destruct (truthy_level level) as [l|]; [by apply Hlevel|done].
Qed.

Lemma incorrect_answer_reactivates_witness :
  let w := exec (answer_all 7 [(true, "spelling")]) world_streak2 in
  let wr := mk_word 7 0 "a" in
  let w' := exec (update_word_progress (w_id wr) false "meaning") w in
  review_row w' 1 wr ∈
    eval (get_words_for_review (-1) None)
      (with_clock (λ _, clock w (ticks w) + timedelta 0 0 15) 0 w').
Proof.
  apply (incorrect_answer_reactivates
           (exec (answer_all 7 [(true, "spelling")]) world_streak2) 1
           (mk_word 7 0 "a") "meaning").
  - reflexivity.
  - vm_compute. apply list_elem_of_here.
  - lia.
  - left. lia.
  - intros l Hl. vm_compute in Hl. discriminate.
Defined.

(** ** The size and the content of a review *)

(** The review holds exactly min(limit, number of eligible words) rows,
    and every eligible word when the limit is negative. *)
Theorem review_result_size w uid limit level :
  logged_in w uid →
  length (eval (get_words_for_review limit level) w) =
  if limit <? 0 then eligible_count w uid (clock w (ticks w)) level
  else (Z.to_nat limit `min` eligible_count w uid (clock w (ticks w)) level)%nat.
Proof.
  intros Hu. unfold eval.
  rewrite (get_words_for_review_run _ _ _ _ Hu). simpl.
  rewrite length_fmap. unfold review_query, sql_limit.
  destruct (limit <? 0).
  - by rewrite order_by_perm, eligible_count_filter.
  - by rewrite length_take, order_by_perm, eligible_count_filter.
Qed.

Lemma review_result_size_witness :
  length (eval (get_words_for_review 1 None) world_two_fresh) =
  if 1 <? 0 then eligible_count world_two_fresh 1
                   (clock world_two_fresh (ticks world_two_fresh)) None
  else (Z.to_nat 1 `min` eligible_count world_two_fresh 1
                   (clock world_two_fresh (ticks world_two_fresh)) None)%nat.
Proof. apply (review_result_size world_two_fresh 1 1 None). reflexivity. Defined.

(** The counters returned with a word are the ones the next answer starts
    from: the stored row's, or 0, 0, 1, 0, 0 for a word without a row. *)
Theorem review_row_counters w uid limit level row :
  logged_in w uid →
  row ∈ eval (get_words_for_review limit level) w →
  row_counters row = stored_state uid (rr_id row) w.
Proof.
  intros Hu Hrow. unfold eval in Hrow.
  rewrite (get_words_for_review_run _ _ _ _ Hu) in Hrow. simpl in Hrow.
  apply (list_elem_of_fmap_1 _) in Hrow as (j & -> & Hj).
  apply review_query_elem in Hj as (wr & _ & -> & _).
  unfold row_counters, select_columns. simpl.
  destruct (user_word_progress w !! (uid, w_id wr)) as [r|] eqn:Hr.
  - by rewrite (stored_state_some _ _ _ _ Hr).
  - by rewrite (stored_state_none _ _ _ Hr).
Qed.

Lemma review_row_counters_witness :
  row_counters (review_row world_two_fresh 1 (mk_word 2 0 "a")) =
  stored_state 1 (rr_id (review_row world_two_fresh 1 (mk_word 2 0 "a"))) world_two_fresh.
Proof.
  apply (review_row_counters world_two_fresh 1 10 None).
  - reflexivity.
  - vm_compute. apply list_elem_of_further, list_elem_of_here.
Defined.

(** A review never returns a word twice when the ids of the words table
    are distinct. *)
Theorem review_ids_nodup w limit level :
  NoDup (w_id <$> words w) →
  NoDup (review_ids limit level w).
Proof.
  intros Hnd. unfold review_ids, eval.
  destruct (truthy_id (current_user_id w)) as [uid|] eqn:Hu.
  - rewrite (get_words_for_review_run _ uid) by done. simpl.
    rewrite <- list_fmap_compose.
    assert (Hjoin : (rr_id ∘ select_columns) <$> left_join uid w = w_id <$> words w).
    { unfold left_join. by rewrite <- list_fmap_compose. }
    rewrite <- Hjoin in Hnd. unfold review_query.
    eapply sublist_NoDup; [|apply fmap_sublist, sql_limit_sublist].
    rewrite order_by_perm.
    eapply sublist_NoDup; [exact Hnd|].
    apply fmap_sublist. rewrite list_filter_bool. apply sublist_filter.
  - unfold get_words_for_review, mbind, M_bind, gets. simpl. rewrite Hu. simpl.
    constructor.
Qed.

Lemma review_ids_nodup_witness : NoDup (review_ids 10 None world_late_word).
Proof.
  apply (review_ids_nodup world_late_word 10 None).
  apply (bool_decide_unpack _). vm_compute. exact I.
Defined.

(** A non-empty level returns words of that level only; the empty string
    is no filter and gives the result of a call without a level. *)
Theorem review_level_filter w limit :
  (∀ l row, l ≠ "" → row ∈ eval (get_words_for_review limit (Some l)) w →
            rr_level row = l) ∧
  get_words_for_review limit (Some "") w = get_words_for_review limit None w.
Proof.
  split; [|done].
  intros l row Hl Hrow. unfold eval in Hrow.
  destruct (truthy_id (current_user_id w)) as [uid|] eqn:Hu.
  - rewrite (get_words_for_review_run _ uid) in Hrow by done. simpl in Hrow.
    apply (list_elem_of_fmap_1 _) in Hrow as (j & -> & Hj).
    apply review_query_elem in Hj as (wr & _ & -> & Hw).
    unfold where_clause in Hw. simpl in *.
    apply andb_true_iff in Hw as [_ Hw].
    destruct (String.eqb l "") eqn:He; [by apply String.eqb_eq in He|].
    by apply String.eqb_eq in Hw.
  - unfold get_words_for_review, mbind, M_bind, gets in Hrow. simpl in Hrow.
    rewrite Hu in Hrow. simpl in Hrow. by apply elem_of_nil in Hrow.
Qed.


(** * Users *)

Section Users.
Context `{Sha256}.

Lemma find_none_username (l : list UserRow) username hash :
  existsb (λ u, String.eqb (u_username u) username) l = false →
  List.find (λ u, String.eqb (u_username u) username
                  && String.eqb (u_password_hash u) hash) l = None.
Proof.
  induction l as [|u l IH]; simpl; [done|].
  intros Hex. apply orb_false_iff in Hex as [Hu Hl].
  rewrite Hu. simpl. by apply IH.
Qed.

Lemma find_app_none {A} (f : A → bool) (l1 l2 : list A) :
  List.find f l1 = None → List.find f (l1 ++ l2) = List.find f l2.
Proof.
  induction l1 as [|x l1 IH]; simpl; [done|].
  destruct (f x); [done|]. apply IH.
Qed.

Lemma next_rowid_fresh seq (ids : list Z) :
  seq < next_rowid seq ids ∧ Forall (λ i, i < next_rowid seq ids) ids.
Proof.
  unfold next_rowid. induction ids as [|i ids [IH1 IH2]]; simpl.
  - split; [lia|constructor].
  - split; [lia|]. constructor; [lia|].
    eapply Forall_impl; [exact IH2|]. simpl. lia.
Qed.

Lemma register_user_run db username password email :
  existsb (λ u, String.eqb (u_username u) username) (users db) = false →
  register_user username password email db =
  (Some (next_rowid (users_seq db) (u_id <$> users db)),
   {| world := snd (read_clock (world db));
      users := users db ++
        [{| u_id := next_rowid (users_seq db) (u_id <$> users db);
            u_username := username;
            u_password_hash := hash_password password; u_email := email;
            u_created_at := clock (world db) (ticks (world db));
            u_last_login := None |}];
      users_seq := next_rowid (users_seq db) (u_id <$> users db);
      words_seq := words_seq db; system_state := system_state db |}).
Proof.
  intros Hfree. unfold register_user, mbind, MA_bind, getsA. simpl.
  rewrite Hfree. reflexivity.
Qed.

Lemma login_user_run db username password u :
  List.find (λ u, String.eqb (u_username u) username
                  && String.eqb (u_password_hash u) (hash_password password))
            (users db) = Some u →
  evalA (login_user username password) db = true ∧
  current_user_id (world (execA (login_user username password) db)) = Some (u_id u) ∧
  u_username <$> users (execA (login_user username password) db) = u_username <$> users db ∧
  u_password_hash <$> users (execA (login_user username password) db) =
    u_password_hash <$> users db ∧
  u_id <$> users (execA (login_user username password) db) = u_id <$> users db.
Proof.
  intros Hfind. unfold evalA, execA, login_user, mbind, MA_bind, getsA. simpl.
  rewrite Hfind. simpl.
  repeat split; rewrite <- list_fmap_compose; apply list_fmap_ext;
    intros i x _; simpl; by case_match.
Qed.

(** A user registered under a free name can log in with the same
    password: [register_user] returns a new id, and [login_user] then
    returns True and makes that id the current user.  The id is not 0 when
    the AUTOINCREMENT counter is not negative, so the scheduler then acts
    for that user. *)
Theorem register_then_login db username password email :
  existsb (λ u, String.eqb (u_username u) username) (users db) = false →
  0 ≤ users_seq db →
  ∃ user_id,
    evalA (register_user username password email) db = Some user_id ∧
    let db1 := execA (register_user username password email) db in
    evalA (login_user username password) db1 = true ∧
    logged_in (world (execA (login_user username password) db1)) user_id.
Proof.
  intros Hfree Hseq.
  pose proof (register_user_run db username password email Hfree) as Hrun.
  exists (next_rowid (users_seq db) (u_id <$> users db)).
  split; [unfold evalA; by rewrite Hrun|].
  simpl. set (db1 := execA (register_user username password email) db).
  set (row := {| u_id := next_rowid (users_seq db) (u_id <$> users db);
                 u_username := username;
                 u_password_hash := hash_password password; u_email := email;
                 u_created_at := clock (world db) (ticks (world db));
                 u_last_login := None |}).
  assert (Husers : users db1 = users db ++ [row]).
  { unfold db1, execA. by rewrite Hrun. }
  assert (Hfind : List.find
    (λ u, String.eqb (u_username u) username
          && String.eqb (u_password_hash u) (hash_password password))
    (users db1) = Some row).
  { rewrite Husers, find_app_none by (by apply find_none_username).
    simpl. by rewrite !String.eqb_refl. }
  destruct (login_user_run db1 username password row Hfind) as (Hr & Hc & _).
  split; [done|].
  unfold logged_in. rewrite Hc. simpl.
  destruct (next_rowid_fresh (users_seq db) (u_id <$> users db)) as [Hlt _].
  destruct (next_rowid (users_seq db) (u_id <$> users db) =? 0) eqn:Hz; [|done].
  apply Z.eqb_eq in Hz. lia.
Qed.

Lemma existsb_username (l : list UserRow) username :
  existsb (λ u, String.eqb (u_username u) username) l = true ↔
  username ∈ u_username <$> l.
Proof.
  rewrite existsb_exists, list_elem_of_fmap. split.
  - intros (u & Hu & He). apply String.eqb_eq in He.
    exists u. split; [done|]. exact (proj2 (list_elem_of_In _ _) Hu).
  - intros (u & -> & Hu). exists u.
    split; [exact (proj1 (list_elem_of_In _ _) Hu)|].
    apply String.eqb_refl.
Qed.

Lemma register_user_taken db username password email :
  username ∈ u_username <$> users db →
  register_user username password email db = (None, db).
Proof.
  intros Hin. apply existsb_username in Hin.
  unfold register_user, mbind, MA_bind, getsA. simpl. by rewrite Hin.
Qed.

(** Registering a name that is taken changes nothing and returns None,
    whatever the password and the email. *)
Theorem register_taken_name db username password email :
  username ∈ u_username <$> users db →
  register_user username password email db = (None, db).
Proof. apply register_user_taken. Qed.

(** [register_user] keeps the usernames and the ids of [users] distinct. *)
Theorem register_keeps_unique db username password email :
  NoDup (u_username <$> users db) →
  NoDup (u_id <$> users db) →
  let db' := execA (register_user username password email) db in
  NoDup (u_username <$> users db') ∧ NoDup (u_id <$> users db').
Proof.
  intros Hnames Hids. simpl.
  destruct (existsb (λ u, String.eqb (u_username u) username) (users db)) eqn:Hex.
  - apply existsb_username in Hex.
    unfold execA. by rewrite register_user_taken.
  - unfold execA. rewrite (register_user_run _ _ _ _ Hex). simpl.
    rewrite !fmap_app. simpl. split.
    + apply NoDup_app. split; [done|]. split; [|apply NoDup_singleton].
      intros x Hx Hx'. apply list_elem_of_singleton in Hx' as ->.
      apply existsb_username in Hx. congruence.
    + apply NoDup_app. split; [done|]. split; [|apply NoDup_singleton].
      intros x Hx Hx'. apply list_elem_of_singleton in Hx' as ->.
      destruct (next_rowid_fresh (users_seq db) (u_id <$> users db)) as [_ Hlt].
      rewrite Forall_forall in Hlt. specialize (Hlt _ Hx). lia.
Qed.

Lemma find_login_some (l : list UserRow) username hash u :
  List.find (λ u, String.eqb (u_username u) username
                  && String.eqb (u_password_hash u) hash) l = Some u →
  u ∈ l ∧ u_username u = username ∧ u_password_hash u = hash.
Proof.
  intros Hf. apply find_some in Hf as [Hin Hb].
  apply andb_true_iff in Hb as [Hn Hh].
  apply String.eqb_eq in Hn, Hh.
  split; [exact (proj2 (list_elem_of_In _ _) Hin)|done].
Qed.

Lemma find_login_none (l : list UserRow) username hash :
  List.find (λ u, String.eqb (u_username u) username
                  && String.eqb (u_password_hash u) hash) l = None →
  ∀ u, u ∈ l → ¬ (u_username u = username ∧ u_password_hash u = hash).
Proof.
  intros Hf u Hin [Hn Hh].
  pose proof (find_none _ _ Hf u (proj1 (list_elem_of_In _ _) Hin)) as Hb.
  simpl in Hb.
  rewrite <- Hn, <- Hh, !String.eqb_refl in Hb. done.
Qed.

(** [login_user] returns True exactly when some row carries the username
    and the hash of the password; when it returns False it changes
    nothing, so a learner who was logged in stays logged in. *)
Theorem login_user_result db username password :
  (evalA (login_user username password) db = true ↔
   ∃ u, u ∈ users db ∧ u_username u = username ∧
        u_password_hash u = hash_password password) ∧
  (evalA (login_user username password) db = false →
   execA (login_user username password) db = db).
Proof.
  destruct (List.find (λ u, String.eqb (u_username u) username
              && String.eqb (u_password_hash u) (hash_password password))
              (users db)) as [u|] eqn:Hfind.
  - destruct (login_user_run db username password u Hfind) as (Hr & _).
    rewrite Hr. split; [|done]. split; [|done]. intros _.
    exists u. by apply find_login_some.
  - assert (Hrun : login_user username password db = (false, db)).
    { unfold login_user, mbind, MA_bind, getsA. simpl. by rewrite Hfind. }
    unfold evalA, execA. rewrite Hrun. simpl. split; [|done].
    split; [done|]. intros (u & Hin & Hn & Hh).
    by destruct (find_login_none _ _ _ Hfind u Hin).
Qed.

(** With distinct usernames, a successful login makes the id of the row
    that carries the username the current user, and changes no username,
    hash or id. *)
Theorem login_user_sets_current db username password u :
  NoDup (u_username <$> users db) →
  u ∈ users db →
  u_username u = username →
  u_password_hash u = hash_password password →
  let db' := execA (login_user username password) db in
  current_user_id (world db') = Some (u_id u) ∧
  u_username <$> users db' = u_username <$> users db ∧
  u_password_hash <$> users db' = u_password_hash <$> users db ∧
  u_id <$> users db' = u_id <$> users db.
Proof.
  intros Hnd Hin Hn Hh. simpl.
  destruct (List.find (λ u, String.eqb (u_username u) username
              && String.eqb (u_password_hash u) (hash_password password))
              (users db)) as [u'|] eqn:Hfind.
  - destruct (login_user_run db username password u' Hfind) as (_ & Hc & Hrest).
    destruct (find_login_some _ _ _ _ Hfind) as (Hin' & Hn' & _).
    assert (u' = u) as ->; [|done].
    apply list_elem_of_lookup in Hin as [i Hi], Hin' as [i' Hi'].
    assert (i' = i) as ->; [|congruence].
    eapply (NoDup_lookup _ _ _ _ Hnd); rewrite list_lookup_fmap.
    + by rewrite Hi'.
    + rewrite Hi. simpl. congruence.
  - by destruct (find_login_none _ _ _ Hfind u Hin).
Qed.

Lemma find_id_none (l : list UserRow) i :
  Forall (λ j, j < i) (u_id <$> l) → List.find (λ u, u_id u =? i) l = None.
Proof.
  induction l as [|u l IH]; simpl; [done|].
  intros Hall. apply Forall_cons in Hall as [Hu Hl].
  destruct (u_id u =? i) eqn:He; [apply Z.eqb_eq in He; lia|]. by apply IH.
Qed.

(** [get_user_info] on the id [register_user] returned gives back the
    username and the email, the reading of the clock as creation time,
    and no last login. *)
Theorem register_then_user_info db username password email :
  username ∉ u_username <$> users db →
  ∃ user_id,
    evalA (register_user username password email) db = Some user_id ∧
    evalA (get_user_info (Some user_id))
      (execA (register_user username password email) db) =
    Some (username, email, clock (world db) (ticks (world db)), None).
Proof.
  intros Hfree.
  assert (Hex : existsb (λ u, String.eqb (u_username u) username) (users db) = false).
  { destruct (existsb _ _) eqn:He; [|done]. by apply existsb_username in He. }
  eexists. unfold evalA, execA. rewrite (register_user_run _ _ _ _ Hex). simpl.
  split; [done|].
  rewrite find_app_none.
  - simpl. by rewrite Z.eqb_refl.
  - apply find_id_none, next_rowid_fresh.
Qed.

End Users.

Lemma register_then_login_witness :
  ∃ user_id,
    evalA (register_user (H := sample_digest) "bob" "hunter2" "") db_alice = Some user_id ∧
    let db1 := execA (register_user (H := sample_digest) "bob" "hunter2" "") db_alice in
    evalA (login_user (H := sample_digest) "bob" "hunter2") db1 = true ∧
    logged_in (world (execA (login_user (H := sample_digest) "bob" "hunter2") db1)) user_id.
Proof.
  apply (register_then_login (H := sample_digest) db_alice "bob" "hunter2" "").
  - reflexivity.
  - vm_compute. discriminate.
Defined.


Lemma register_taken_name_witness :
  register_user (H := sample_digest) "alice" "other" "a@b" db_alice = (None, db_alice).
Proof.
  apply (register_taken_name (H := sample_digest) db_alice "alice" "other" "a@b").
  vm_compute. apply list_elem_of_here.
Defined.

Lemma register_keeps_unique_witness :
  let db' := execA (register_user (H := sample_digest) "bob" "hunter2" "") db_alice in
  NoDup (u_username <$> users db') ∧ NoDup (u_id <$> users db').
Proof.
  apply (register_keeps_unique (H := sample_digest) db_alice "bob" "hunter2" "").
  - apply (bool_decide_unpack _). vm_compute. exact I.
  - apply (bool_decide_unpack _). vm_compute. exact I.
Defined.

Lemma login_user_sets_current_witness :
  let db' := execA (login_user (H := sample_digest) "alice" "secret") db_alice in
  current_user_id (world db') = Some (u_id (mk_user 1 "alice" "h:secret")) ∧
  u_username <$> users db' = u_username <$> users db_alice ∧
  u_password_hash <$> users db' = u_password_hash <$> users db_alice ∧
  u_id <$> users db' = u_id <$> users db_alice.
Proof.
  apply (login_user_sets_current (H := sample_digest) db_alice "alice" "secret"
           (mk_user 1 "alice" "h:secret")).
  - apply (bool_decide_unpack _). vm_compute. exact I.
  - vm_compute. apply list_elem_of_here.
  - reflexivity.
  - reflexivity.
Defined.

Lemma register_then_user_info_witness :
  ∃ user_id,
    evalA (register_user (H := sample_digest) "bob" "hunter2" "b@c") db_alice = Some user_id ∧
    evalA (get_user_info (Some user_id))
      (execA (register_user (H := sample_digest) "bob" "hunter2" "b@c") db_alice) =
    Some ("bob", "b@c", clock (world db_alice) (ticks (world db_alice)), None).
Proof.
  apply (register_then_user_info (H := sample_digest) db_alice "bob" "hunter2" "b@c").
  apply (bool_decide_unpack _). vm_compute. exact I.
Defined.


(** * System state *)

Section SystemState.
Context `{Json Value}.

Lemma save_system_state_run db uid key (value : Value) :
  logged_in (world db) uid →
  save_system_state key value db =
  (true,
   {| world := snd (read_clock (world db)); users := users db;
      users_seq := users_seq db; words_seq := words_seq db;
      system_state :=
        <[(uid, key) := {| st_state_value := json_dumps value;
                           st_updated_at := clock (world db) (ticks (world db)) |}]>
          (system_state db) |}).
Proof.
  unfold logged_in. intros Hu.
  unfold save_system_state, mbind, MA_bind, getsA. simpl. by rewrite Hu.
Qed.

Lemma load_system_state_run db uid key (default_value : Value) :
  logged_in (world db) uid →
  load_system_state key default_value db =
  (match system_state db !! (uid, key) with
   | Some r => default default_value (json_loads (st_state_value r))
   | None => default_value
   end, db).
Proof.
  unfold logged_in. intros Hu.
  unfold load_system_state, mbind, MA_bind, getsA. simpl. rewrite Hu. simpl.
  destruct (system_state db !! (uid, key)) as [r|]; simpl; [|done].
  by destruct (json_loads (st_state_value r)).
Qed.

Lemma get_all_system_states_lookup db uid key :
  logged_in (world db) uid →
  evalA get_all_system_states db !! key =
  decode_or_raw <$> system_state db !! (uid, key).
Proof.
  unfold logged_in. intros Hu.
  unfold evalA, get_all_system_states, mbind, MA_bind, getsA. simpl.
  rewrite Hu. simpl. rewrite lookup_fmap. f_equal.
  rewrite <- (lookup_map_curry (M1 := gmap Z) (M2 := gmap string)).
  by destruct (map_curry (system_state db) !! uid).
Qed.

(** A value saved under a key is the value loaded from it, provided
    [json.loads] reads back what [json.dumps] wrote for it; a value stored
    before under the key is replaced. *)
Theorem save_then_load db uid key (value default_value : Value) :
  logged_in (world db) uid →
  json_loads (json_dumps value) = Some value →
  evalA (save_system_state key value) db = true ∧
  evalA (load_system_state key default_value)
    (execA (save_system_state key value) db) = value.
Proof.
  intros Hu Hjson. unfold evalA, execA.
  rewrite (save_system_state_run _ _ _ _ Hu). simpl. split; [done|].
  rewrite (load_system_state_run _ uid) by done.
  cbn [system_state]. rewrite lookup_insert_eq.
  cbn [st_state_value]. by rewrite Hjson.
Qed.

(** Saving under a key leaves what is loaded from every other key as it
    was, and leaves the rows of every other user alone. *)
Theorem save_other_keys db uid key (value : Value) :
  logged_in (world db) uid →
  let db' := execA (save_system_state key value) db in
  (∀ key' (default_value : Value), key' ≠ key →
     evalA (load_system_state key' default_value) db' =
     evalA (load_system_state key' default_value) db) ∧
  (∀ uid' key', uid' ≠ uid →
     system_state db' !! (uid', key') = system_state db !! (uid', key')).
Proof.
  intros Hu. simpl. unfold execA.
  rewrite (save_system_state_run _ _ _ _ Hu). simpl. split.
  - intros key' d Hk. unfold evalA.
    rewrite !(load_system_state_run _ uid) by done. simpl.
    by rewrite lookup_insert_ne by congruence.
  - intros uid' key' Hne. by rewrite lookup_insert_ne by congruence.
Qed.

(** [load_system_state] and [get_all_system_states] agree: a key is in
    the dictionary exactly when the user has a row for it; the dictionary
    holds the decoded value, which is what is loaded, or the stored text
    when that does not decode, in which case the default is loaded. *)
Theorem load_agrees_with_all db uid key (default_value : Value) :
  logged_in (world db) uid →
  evalA (load_system_state key default_value) db =
  match evalA get_all_system_states db !! key with
  | Some (inl v) => v
  | Some (inr _) => default_value
  | None => default_value
  end ∧
  (evalA get_all_system_states db !! key = None ↔
   system_state db !! (uid, key) = None) ∧
  (∀ raw, evalA get_all_system_states db !! key = Some (inr raw) →
     json_loads raw = None ∧
     st_state_value <$> system_state db !! (uid, key) = Some raw).
Proof.
  intros Hu. rewrite (get_all_system_states_lookup _ _ _ Hu).
  unfold evalA at 1. rewrite (load_system_state_run _ uid) by done. simpl.
  destruct (system_state db !! (uid, key)) as [r|]; simpl.
  - unfold decode_or_raw.
    destruct (json_loads (st_state_value r)) eqn:Hl; simpl.
    + split; [done|]. split; [done|]. intros raw Hraw. done.
    + split; [done|]. split; [done|]. intros raw [= <-]. done.
  - split; [done|]. split; [done|]. intros raw Hraw. done.
Qed.

(** Clearing a non-empty key removes that key alone: the default is
    loaded from it afterwards, and every other key loads as before. *)
Theorem clear_one_key db uid key :
  logged_in (world db) uid →
  key ≠ "" →
  let db' := execA (clear_system_state (Some key)) db in
  evalA (clear_system_state (Some key)) db = true ∧
  (∀ default_value : Value, evalA (load_system_state key default_value) db' = default_value) ∧
  (∀ key' (default_value : Value), key' ≠ key →
     evalA (load_system_state key' default_value) db' =
     evalA (load_system_state key' default_value) db) ∧
  (∀ uid' key', uid' ≠ uid →
     system_state db' !! (uid', key') = system_state db !! (uid', key')).
Proof.
  intros Hu Hk. simpl.
  assert (Hrun : clear_system_state (Some key) db =
    (true, {| world := world db; users := users db; users_seq := users_seq db;
              words_seq := words_seq db;
              system_state := delete (uid, key) (system_state db) |})).
  { unfold clear_system_state, mbind, MA_bind, getsA. simpl.
    rewrite Hu. simpl.
    destruct (String.eqb key "") eqn:He; [by apply String.eqb_eq in He|done]. }
  unfold evalA at 1, execA. rewrite Hrun. simpl.
  split; [done|]. split; [|split].
  - intros d. unfold evalA. rewrite (load_system_state_run _ uid) by done.
    simpl. by rewrite lookup_delete_eq.
  - intros key' d Hne. unfold evalA.
    rewrite !(load_system_state_run _ uid) by done. simpl.
    by rewrite lookup_delete_ne by congruence.
  - intros uid' key' Hne. by rewrite lookup_delete_ne by congruence.
Qed.

(** Clearing without a key, or with the empty string as key, removes every
    state of the current user: each key then loads its default and the
    dictionary of all states is empty; the rows of other users stay. *)
Theorem clear_all_keys db uid key :
  logged_in (world db) uid →
  key = None ∨ key = Some "" →
  let db' := execA (clear_system_state key) db in
  evalA (clear_system_state key) db = true ∧
  (∀ key' (default_value : Value),
     evalA (load_system_state key' default_value) db' = default_value) ∧
  evalA get_all_system_states db' = ∅ ∧
  (∀ uid' key', uid' ≠ uid →
     system_state db' !! (uid', key') = system_state db !! (uid', key')).
Proof.
  intros Hu Hkey. simpl.
  assert (Hrun : clear_system_state key db =
    (true, {| world := world db; users := users db; users_seq := users_seq db;
              words_seq := words_seq db;
              system_state := filter (λ kv, kv.1.1 ≠ uid) (system_state db) |})).
  { unfold clear_system_state, mbind, MA_bind, getsA. simpl.
    rewrite Hu. simpl. by destruct Hkey as [-> | ->]. }
  unfold evalA at 1, execA. rewrite Hrun. simpl.
  set (db' := {| world := world db |}).
  assert (Hgone : ∀ key', system_state db' !! (uid, key') = None).
  { intros key'. unfold db'. simpl. apply map_lookup_filter_None.
    right. intros r _ Hne. by apply Hne. }
  split; [done|]. split; [|split].
  - intros key' d. unfold evalA. rewrite (load_system_state_run _ uid) by done.
    by rewrite Hgone.
  - apply map_eq. intros key'.
    rewrite (get_all_system_states_lookup _ uid) by done.
    by rewrite Hgone, lookup_empty.
  - intros uid' key' Hne. unfold db'. simpl.
    destruct (system_state db !! (uid', key')) as [r|] eqn:Hr.
    + apply map_lookup_filter_Some. split; [done|]. simpl. done.
    + apply map_lookup_filter_None. by left.
Qed.

(** With nobody logged in the four methods touch nothing:
    [save_system_state] and [clear_system_state] return False,
    [load_system_state] returns the default and
    [get_all_system_states] the empty dictionary. *)
Theorem system_state_logged_out db key okey (value default_value : Value) :
  current_user_id (world db) = None →
  save_system_state key value db = (false, db) ∧
  load_system_state key default_value db = (default_value, db) ∧
  get_all_system_states db = (∅, db) ∧
  clear_system_state okey db = (false, db).
Proof.
  intros Hu.
  unfold save_system_state, load_system_state, get_all_system_states,
    clear_system_state, mbind, MA_bind, getsA.
  simpl. rewrite Hu. simpl. done.
Qed.

End SystemState.


Lemma save_then_load_witness :
  evalA (save_system_state (H := json_bool) "sound" false) db_states = true ∧
  evalA (load_system_state (H := json_bool) "sound" true)
    (execA (save_system_state (H := json_bool) "sound" false) db_states) = false.
Proof.
  apply (save_then_load (H := json_bool) db_states 1 "sound" false true);
    reflexivity.
Defined.

Lemma save_other_keys_witness :
  let db' := execA (save_system_state (H := json_bool) "sound" false) db_states in
  (∀ key' (default_value : bool), key' ≠ "sound" →
     evalA (load_system_state (H := json_bool) key' default_value) db' =
     evalA (load_system_state (H := json_bool) key' default_value) db_states) ∧
  (∀ uid' key', uid' ≠ 1 →
     system_state db' !! (uid', key') = system_state db_states !! (uid', key')).
Proof. apply (save_other_keys (H := json_bool) db_states 1 "sound" false). reflexivity. Defined.

Lemma load_agrees_with_all_witness :
  evalA (load_system_state (H := json_bool) "broken" true) db_states =
  match evalA (get_all_system_states (H := json_bool)) db_states !! "broken" with
  | Some (inl v) => v
  | Some (inr _) => true
  | None => true
  end ∧
  (evalA (get_all_system_states (H := json_bool)) db_states !! "broken" = None ↔
   system_state db_states !! (1, "broken") = None) ∧
  (∀ raw, evalA (get_all_system_states (H := json_bool)) db_states !! "broken" =
            Some (inr raw) →
     json_loads (Json := json_bool) raw = None ∧
     st_state_value <$> system_state db_states !! (1, "broken") = Some raw).
Proof. apply (load_agrees_with_all (H := json_bool) db_states 1 "broken" true). reflexivity. Defined.

Lemma clear_one_key_witness :
  let db' := execA (clear_system_state (Some "sound")) db_states in
  evalA (clear_system_state (Some "sound")) db_states = true ∧
  (∀ default_value : bool,
     evalA (load_system_state (H := json_bool) "sound" default_value) db' = default_value) ∧
  (∀ key' (default_value : bool), key' ≠ "sound" →
     evalA (load_system_state (H := json_bool) key' default_value) db' =
     evalA (load_system_state (H := json_bool) key' default_value) db_states) ∧
  (∀ uid' key', uid' ≠ 1 →
     system_state db' !! (uid', key') = system_state db_states !! (uid', key')).
Proof.
  apply (clear_one_key (H := json_bool) db_states 1 "sound").
  - reflexivity.
  - discriminate.
Defined.

Lemma clear_all_keys_witness :
  let db' := execA (clear_system_state (Some "")) db_states in
  evalA (clear_system_state (Some "")) db_states = true ∧
  (∀ key' (default_value : bool),
     evalA (load_system_state (H := json_bool) key' default_value) db' = default_value) ∧
  evalA (get_all_system_states (H := json_bool)) db' = ∅ ∧
  (∀ uid' key', uid' ≠ 1 →
     system_state db' !! (uid', key') = system_state db_states !! (uid', key')).
Proof.
  apply (clear_all_keys (H := json_bool) db_states 1 (Some "")).
  - reflexivity.
  - by right.
Defined.

Lemma system_state_logged_out_witness :
  save_system_state (H := json_bool) "sound" true db_alice = (false, db_alice) ∧
  load_system_state (H := json_bool) "sound" false db_alice = (false, db_alice) ∧
  get_all_system_states (H := json_bool) db_alice = (∅, db_alice) ∧
  clear_system_state None db_alice = (false, db_alice).
Proof.
  apply (system_state_logged_out (H := json_bool) db_alice "sound" None true false).
  reflexivity.
Defined.


(** * Resetting the progress *)

Lemma reset_progress_run w :
  exec (reset_progress true) w =
  {| words := words w;
     user_word_progress :=
       filter (λ kv, sql_eq kv.1.1 (current_user_id w) = false) (user_word_progress w);
     study_records :=
       List.filter (λ r, negb (sql_eq (sr_user_id r) (current_user_id w)))
         (study_records w);
     current_user_id := current_user_id w;
     clock := clock w; ticks := ticks w |}.
Proof. reflexivity. Qed.

(** A confirmed reset removes every progress row and every study record of
    the current user and nothing else: the rows and the records of other
    users and the words stay.  The learner's words then start again from
    the initial counters, and each of them is eligible for review, the
    retired ones included. *)
Theorem reset_progress_clears w uid :
  current_user_id w = Some uid →
  let w' := exec (reset_progress true) w in
  (∀ word_id, user_word_progress w' !! (uid, word_id) = None ∧
              stored_state uid word_id w' = (0, 0, 1, 0, 0)) ∧
  (∀ r, r ∈ study_records w' → sr_user_id r ≠ uid) ∧
  (∀ uid' word_id, uid' ≠ uid →
     user_word_progress w' !! (uid', word_id) = user_word_progress w !! (uid', word_id)) ∧
  (∀ r, r ∈ study_records w → sr_user_id r ≠ uid → r ∈ study_records w') ∧
  words w' = words w ∧
  (∀ now, eligible_count w' uid now None = length (words w)).
Proof.
  intros Hu. simpl. rewrite reset_progress_run, Hu.
  set (w' := {| words := words w |}).
  assert (Hgone : ∀ word_id, user_word_progress w' !! (uid, word_id) = None).
  { intros word_id. unfold w'. simpl. apply map_lookup_filter_None.
    right. intros r _. simpl. by rewrite Z.eqb_refl. }
  split; [|split; [|split; [|split; [|split]]]].
  - intros word_id. split; [done|]. by apply stored_state_none.
  - intros r Hr. unfold w' in Hr. simpl in Hr.
    apply list_elem_of_In, filter_In in Hr as [_ Hr].
    apply negb_true_iff, Z.eqb_neq in Hr. done.
  - intros uid' word_id Hne. unfold w'. simpl.
    destruct (user_word_progress w !! (uid', word_id)) as [r|] eqn:Hr.
    + apply map_lookup_filter_Some. split; [done|]. simpl.
      by apply Z.eqb_neq.
    + apply map_lookup_filter_None. by left.
  - intros r Hr Hne. unfold w'. simpl.
    apply list_elem_of_In, filter_In. split; [by apply list_elem_of_In|].
    simpl. by apply negb_true_iff, Z.eqb_neq.
  - done.
  - intros now. unfold eligible_count.
    replace (words w') with (words w) by done.
    clearbody w'. induction (words w) as [|wr ws IH]; [done|].
    rewrite filter_cons_True; [simpl; by rewrite IH|].
    unfold item_eligible. by rewrite Hgone.
Qed.

Lemma reset_progress_clears_witness :
  let w' := exec (reset_progress true) world_streak2 in
  (∀ word_id, user_word_progress w' !! (1, word_id) = None ∧
              stored_state 1 word_id w' = (0, 0, 1, 0, 0)) ∧
  (∀ r, r ∈ study_records w' → sr_user_id r ≠ 1) ∧
  (∀ uid' word_id, uid' ≠ 1 →
     user_word_progress w' !! (uid', word_id) =
     user_word_progress world_streak2 !! (uid', word_id)) ∧
  (∀ r, r ∈ study_records world_streak2 → sr_user_id r ≠ 1 → r ∈ study_records w') ∧
  words w' = words world_streak2 ∧
  (∀ now, eligible_count w' 1 now None = length (words world_streak2)).
Proof. apply (reset_progress_clears world_streak2 1). reflexivity. Defined.

(** A reset that is declined changes nothing, and neither does a
    confirmed one when nobody is logged in: the comparison of [user_id]
    with None selects no row. *)
Theorem reset_progress_nothing w :
  reset_progress false w = ((), w) ∧
  (current_user_id w = None →
   user_word_progress (exec (reset_progress true) w) = user_word_progress w ∧
   study_records (exec (reset_progress true) w) = study_records w ∧
   words (exec (reset_progress true) w) = words w).
Proof.
  split; [done|]. intros Hu. rewrite reset_progress_run, Hu. simpl.
  split; [|split; [|done]].
  - by apply map_filter_id.
  - induction (study_records w) as [|r l IH]; simpl; [done|]. by rewrite IH.
Qed.

(** * Statistics *)

Section Counting.
Context (Q : Z * Z * ProgressRow → Prop) `{!∀ kv, Decision (Q kv)}.
Implicit Types (m : gmap (Z * Z) ProgressRow).

Lemma size_filter_insert m k v :
  size (filter Q (<[k := v]> m)) =
  (size (filter Q (delete k m)) + (if decide (Q (k, v)) then 1 else 0))%nat.
Proof.
  rewrite <- insert_delete_eq, map_filter_insert.
  case_decide.
  - rewrite map_size_insert_None; [lia|].
    apply map_lookup_filter_None. left. apply lookup_delete_eq.
  - rewrite delete_delete_eq. lia.
Qed.

Lemma size_filter_lookup m k :
  size (filter Q m) =
  (size (filter Q (delete k m)) +
   match m !! k with
   | Some r => if decide (Q (k, r)) then 1 else 0
   | None => 0
   end)%nat.
Proof.
  destruct (m !! k) as [r|] eqn:Hk.
  - rewrite <- (insert_id m k r Hk) at 1. apply size_filter_insert.
  - rewrite delete_id by done. lia.
Qed.

End Counting.


(** The counts of the statistics follow the answers.  'mastered_words'
    grows by one with the correct answer that takes the streak from 2 to
    3, shrinks by one with an incorrect answer on a word whose streak was
    at least 3, and is unchanged otherwise; 'studied_words' grows by one
    with the first answer on a word (review_count 0) and is unchanged
    otherwise. *)
Theorem statistics_after_answer w uid word_id ok mode rc cc d m c :
  logged_in w uid →
  stored_state uid word_id w = (rc, cc, d, m, c) →
  let w' := exec (update_word_progress word_id ok mode) w in
  select_mastered_words uid w' =
    select_mastered_words uid w +
    (if ok then (if c =? 2 then 1 else 0) else (if 3 <=? c then -1 else 0)) ∧
  select_studied_words uid w' =
    select_studied_words uid w + (if rc =? 0 then 1 else 0).
Proof.
  intros Hu Hs. simpl. unfold select_mastered_words, select_studied_words.
  rewrite (update_word_progress_run _ _ _ _ _ Hu). simpl.
  rewrite !size_filter_insert.
  rewrite (size_filter_lookup (λ kv : Z * Z * ProgressRow,
             kv.1.1 = uid ∧ 3 ≤ uwp_consecutive_correct kv.2)
             (user_word_progress w) (uid, word_id)).
  rewrite (size_filter_lookup (λ kv : Z * Z * ProgressRow,
             kv.1.1 = uid ∧ 0 < uwp_review_count kv.2)
             (user_word_progress w) (uid, word_id)).
  rewrite Hs. unfold written_row. rewrite update_statistics_rules.
  destruct (user_word_progress w !! (uid, word_id)) as [r|] eqn:Hr.
  - rewrite (stored_state_some _ _ _ _ Hr) in Hs.
    injection Hs as Hrc _ _ _ Hc.
    destruct ok; simpl; rewrite !Nat2Z.inj_add;
      repeat case_decide; repeat case_match; simpl in *; lia.
  - rewrite (stored_state_none _ _ _ Hr) in Hs.
    injection Hs as Hrc _ _ _ Hc. subst rc c.
    destruct ok; simpl; rewrite !Nat2Z.inj_add;
      repeat case_decide; simpl in *; lia.
Qed.

Lemma statistics_after_answer_witness :
  let w' := exec (update_word_progress 7 true "spelling") world_streak2 in
  select_mastered_words 1 w' =
    select_mastered_words 1 world_streak2 +
    (if true then (if 2 =? 2 then 1 else 0) else (if 3 <=? 2 then -1 else 0)) ∧
  select_studied_words 1 w' =
    select_studied_words 1 world_streak2 + (if 2 =? 0 then 1 else 0).
Proof.
  apply (statistics_after_answer world_streak2 1 7 true "spelling" 2 2 1 2 2);
    vm_compute; reflexivity.
Defined.


(** * Initialisation *)

Lemma execA_bind {A B} (m : MA A) (f : A → MA B) db :
  execA (m ≫= f) db = execA (f (evalA m db)) (execA m db).
Proof. unfold execA, evalA, mbind, MA_bind. by destruct (m db). Qed.

Lemma next_rowid_bounded seq (ids : list Z) :
  Forall (λ i, i ≤ seq) ids → next_rowid seq ids = seq + 1.
Proof.
  unfold next_rowid. induction 1 as [|i ids Hi _ IH]; simpl; [done|]. lia.
Qed.

Lemma insert_words_run l db :
  Forall (λ i, i ≤ words_seq db) (w_id <$> words (world db)) →
  let db' := execA (insert_words l) db in
  word_entry <$> words (world db') = (word_entry <$> words (world db)) ++ l ∧
  w_id <$> words (world db') =
    (w_id <$> words (world db)) ++ seqZ (words_seq db + 1) (Z.of_nat (length l)) ∧
  words_seq db' = words_seq db + Z.of_nat (length l) ∧
  users db' = users db ∧ users_seq db' = users_seq db ∧
  system_state db' = system_state db ∧
  user_word_progress (world db') = user_word_progress (world db) ∧
  study_records (world db') = study_records (world db) ∧
  current_user_id (world db') = current_user_id (world db).
Proof.
  revert db. induction l as [|[[[word pron] meaning] level] l IH]; intros db Hb.
  - simpl. unfold execA. simpl. rewrite !app_nil_r, Z.add_0_r. done.
  - cbn [insert_words]. rewrite execA_bind. cbn zeta.
    set (db1 := execA (insert_word (word, pron, meaning, level)) db).
    assert (Hid : next_rowid (words_seq db) (w_id <$> words (world db)) =
                  words_seq db + 1) by (by apply next_rowid_bounded).
    assert (H1 : word_entry <$> words (world db1) =
                 (word_entry <$> words (world db)) ++ [(word, pron, meaning, level)] ∧
                 w_id <$> words (world db1) =
                 (w_id <$> words (world db)) ++ [words_seq db + 1] ∧
                 words_seq db1 = words_seq db + 1 ∧
                 users db1 = users db ∧ users_seq db1 = users_seq db ∧
                 system_state db1 = system_state db ∧
                 user_word_progress (world db1) = user_word_progress (world db) ∧
                 study_records (world db1) = study_records (world db) ∧
                 current_user_id (world db1) = current_user_id (world db)).
    { unfold db1, execA, insert_word, mbind, MA_bind, modifyA, lift. simpl.
      rewrite !fmap_app, Hid. done. }
    destruct H1 as (He & Hi & Hs & Hu & Hus & Hst & Hp & Hr & Hc).
    assert (Hb1 : Forall (λ i, i ≤ words_seq db1) (w_id <$> words (world db1))).
    { rewrite Hi, Hs. apply Forall_app. split.
      - eapply Forall_impl; [exact Hb|]. simpl. lia.
      - repeat constructor. lia. }
    destruct (IH db1 Hb1) as (He' & Hi' & Hs' & Hu' & Hus' & Hst' & Hp' & Hr' & Hc').
    rewrite He', Hi', Hs', Hu', Hus', Hst', Hp', Hr', Hc'.
    rewrite He, Hi, Hs, Hu, Hus, Hst, Hp, Hr, Hc.
    rewrite <- !app_assoc. simpl.
    replace (Z.of_nat (S (length l))) with (1 + Z.of_nat (length l)) by lia.
    rewrite (seqZ_app _ 1) by lia.
    split; [done|]. split; [done|]. split; [lia|done].
Qed.

Lemma init_default_words_empty db default_words :
  words (world db) = [] →
  let db' := execA (init_default_words default_words) db in
  word_entry <$> words (world db') = default_words ∧
  w_id <$> words (world db') =
    seqZ (words_seq db + 1) (Z.of_nat (length default_words)) ∧
  NoDup (w_id <$> words (world db')) ∧
  users db' = users db ∧ system_state db' = system_state db ∧
  user_word_progress (world db') = user_word_progress (world db).
Proof.
  intros Hempty. simpl.
  assert (Hrun : execA (init_default_words default_words) db =
                 execA (insert_words default_words) db).
  { unfold execA, init_default_words, mbind, MA_bind, getsA. simpl.
    by rewrite Hempty. }
  rewrite Hrun.
  destruct (insert_words_run default_words db) as (He & Hi & _ & Hu & _ & Hst & Hp & _).
  { rewrite Hempty. constructor. }
  rewrite Hempty in He, Hi. simpl in He, Hi.
  rewrite He, Hi. repeat split; try done. apply NoDup_seqZ.
Qed.

(** On an empty table [init_default_words] inserts the default words in
    their order, with the ids that follow the AUTOINCREMENT counter one by
    one, so that no two words share an id; it touches no other table. *)
Theorem init_default_words_fresh db default_words :
  words (world db) = [] →
  let db' := execA (init_default_words default_words) db in
  word_entry <$> words (world db') = default_words ∧
  w_id <$> words (world db') =
    seqZ (words_seq db + 1) (Z.of_nat (length default_words)) ∧
  NoDup (w_id <$> words (world db')) ∧
  users db' = users db ∧ system_state db' = system_state db ∧
  user_word_progress (world db') = user_word_progress (world db).
Proof. apply init_default_words_empty. Qed.

Lemma init_default_words_fresh_witness :
  let db' := execA (init_default_words sample_words) db_empty in
  word_entry <$> words (world db') = sample_words ∧
  w_id <$> words (world db') =
    seqZ (words_seq db_empty + 1) (Z.of_nat (length sample_words)) ∧
  NoDup (w_id <$> words (world db')) ∧
  users db' = users db_empty ∧ system_state db' = system_state db_empty ∧
  user_word_progress (world db') = user_word_progress (world db_empty).
Proof. apply (init_default_words_fresh db_empty sample_words). reflexivity. Defined.

Lemma init_default_words_skip db default_words :
  words (world db) ≠ [] → init_default_words default_words db = ((), db).
Proof.
  intros Hne. unfold init_default_words, mbind, MA_bind, getsA. simpl.
  destruct (words (world db)); [done|]. reflexivity.
Qed.

(** [init_default_words] fills an empty table only: when the table holds a
    word it inserts nothing, whatever is missing, and running it a second
    time changes nothing. *)
Theorem init_default_words_once db default_words :
  (words (world db) ≠ [] → init_default_words default_words db = ((), db)) ∧
  execA (init_default_words default_words)
    (execA (init_default_words default_words) db) =
  execA (init_default_words default_words) db.
Proof.
  split; [apply init_default_words_skip|].
  destruct (words (world db)) as [|wr ws] eqn:Hw.
  - destruct default_words as [|e l].
    + unfold execA, init_default_words, mbind, MA_bind, getsA. simpl.
      rewrite Hw. simpl. rewrite Hw. done.
    + set (db1 := execA (init_default_words (e :: l)) db).
      assert (Hne : words (world db1) ≠ []).
      { destruct (init_default_words_empty db (e :: l) Hw) as (He & _).
        fold db1 in He. intros Hnil. by rewrite Hnil in He. }
      unfold execA at 1. by rewrite (init_default_words_skip _ _ Hne).
  - assert (Hne : words (world db) ≠ []) by (by rewrite Hw).
    unfold execA. by rewrite !(init_default_words_skip _ _ Hne).
Qed.

Section Admin.
Context `{Sha256}.

Lemma find_admin_none (l : list UserRow) :
  "admin" ∉ u_username <$> l →
  List.find (λ u, String.eqb (u_username u) "admin") l = None.
Proof.
  induction l as [|u l IH]; simpl; [done|].
  intros Hnot. apply not_elem_of_cons in Hnot as [Hu Hl].
  destruct (String.eqb (u_username u) "admin") eqn:He.
  - apply String.eqb_eq in He. congruence.
  - by apply IH.
Qed.

Lemma init_default_words_users db default_words :
  users (execA (init_default_words default_words) db) = users db.
Proof.
  destruct (words (world db)) as [|wr ws] eqn:Hw.
  - by destruct (init_default_words_empty db default_words Hw) as (_ & _ & _ & Hu & _).
  - unfold execA. rewrite init_default_words_skip; [done|]. by rewrite Hw.
Qed.

Lemma init_admin_user_found db default_words fuel :
  "admin" ∈ u_username <$> users db →
  init_admin_user (S fuel) default_words db = (Some (), db).
Proof.
  intros Hin. simpl. unfold mbind, MA_bind, getsA. simpl.
  destruct (List.find (λ u, String.eqb (u_username u) "admin") (users db))
    as [u|] eqn:Hf; [done|].
  apply list_elem_of_fmap in Hin as (u & Hn & Hu).
  pose proof (find_none _ _ Hf u (proj1 (list_elem_of_In _ _) Hu)) as Hb.
  simpl in Hb. by rewrite <- Hn, String.eqb_refl in Hb.
Qed.

(** When the users table has an admin, [init_admin_user] returns at once
    and changes nothing: the stored password is not reset. *)
Theorem init_admin_user_existing db default_words fuel :
  "admin" ∈ u_username <$> users db →
  init_admin_user (S fuel) default_words db = (Some (), db).
Proof. apply init_admin_user_found. Qed.

Lemma init_admin_user_step db default_words fuel :
  "admin" ∉ u_username <$> users db →
  init_admin_user (S fuel) default_words db =
  init_admin_user fuel default_words
    (execA (init_default_words default_words)
       {| world := snd (read_clock (world db));
          users := users db ++
            [{| u_id := next_rowid (users_seq db) (u_id <$> users db);
                u_username := "admin";
                u_password_hash := hash_password "admin123";
                u_email := "admin@wordmemory.com";
                u_created_at := clock (world db) (ticks (world db));
                u_last_login := None |}];
          users_seq := next_rowid (users_seq db) (u_id <$> users db);
          words_seq := words_seq db; system_state := system_state db |}).
Proof.
  intros Hfree. cbn [init_admin_user].
  unfold mbind, MA_bind, getsA, modifyA, lift.
  rewrite (find_admin_none _ Hfree).
  cbn -[init_default_words init_admin_user next_rowid].
  unfold execA. by destruct (init_default_words _ _).
Qed.

(** Without an admin, [init_admin_user] creates one and returns after one
    call of itself (two levels of calls are enough): the user admin can
    then log in with the password admin123, and the default words are in
    place if the table was empty. *)
Theorem init_admin_user_fresh db default_words fuel :
  "admin" ∉ u_username <$> users db →
  (2 ≤ fuel)%nat →
  evalA (init_admin_user fuel default_words) db = Some () ∧
  let db' := execA (init_admin_user fuel default_words) db in
  evalA (login_user "admin" "admin123") db' = true ∧
  u_username <$> users db' = (u_username <$> users db) ++ ["admin"] ∧
  (words (world db) = [] → word_entry <$> words (world db') = default_words).
Proof.
  intros Hfree Hfuel.
  destruct fuel as [|[|fuel]]; [lia|lia|].
  set (row := {| u_id := next_rowid (users_seq db) (u_id <$> users db);
                 u_username := "admin";
                 u_password_hash := hash_password "admin123";
                 u_email := "admin@wordmemory.com";
                 u_created_at := clock (world db) (ticks (world db));
                 u_last_login := None |}).
  set (db1 := {| world := snd (read_clock (world db));
                 users := users db ++ [row];
                 users_seq := next_rowid (users_seq db) (u_id <$> users db);
                 words_seq := words_seq db; system_state := system_state db |}).
  set (db2 := execA (init_default_words default_words) db1).
  assert (Husers : users db2 = users db ++ [row]).
  { unfold db2. by rewrite init_default_words_users. }
  assert (Hadmin : "admin" ∈ u_username <$> users db2).
  { rewrite Husers, fmap_app. apply elem_of_app. right. apply list_elem_of_here. }
  assert (Hrun : init_admin_user (S (S fuel)) default_words db = (Some (), db2)).
  { rewrite (init_admin_user_step _ _ _ Hfree). fold row. fold db1. fold db2.
    by apply init_admin_user_found. }
  unfold evalA at 1, execA. rewrite Hrun. simpl. split; [done|].
  assert (Hfind : List.find
    (λ u, String.eqb (u_username u) "admin"
          && String.eqb (u_password_hash u) (hash_password "admin123"))
    (users db2) = Some row).
  { rewrite Husers, find_app_none.
    - simpl. by rewrite String.eqb_refl.
    - apply find_none_username.
      destruct (existsb _ _) eqn:He; [|done]. by apply existsb_username in He. }
  destruct (login_user_run db2 "admin" "admin123" row Hfind) as (Hr & _).
  split; [done|]. split.
  - by rewrite Husers, fmap_app.
  - intros Hempty.
    by destruct (init_default_words_empty db1 default_words Hempty) as (He & _).
Qed.

End Admin.

Lemma init_admin_user_existing_witness :
  init_admin_user (H := sample_digest) 1 sample_words
    (execA (init_admin_user (H := sample_digest) 2 sample_words) db_empty) =
  (Some (), execA (init_admin_user (H := sample_digest) 2 sample_words) db_empty).
Proof.
  apply (init_admin_user_existing (H := sample_digest)
           (execA (init_admin_user (H := sample_digest) 2 sample_words) db_empty)
           sample_words 0).
  vm_compute. apply list_elem_of_here.
Defined.

Lemma init_admin_user_fresh_witness :
  evalA (init_admin_user (H := sample_digest) 2 sample_words) db_empty = Some () ∧
  let db' := execA (init_admin_user (H := sample_digest) 2 sample_words) db_empty in
  evalA (login_user (H := sample_digest) "admin" "admin123") db' = true ∧
  u_username <$> users db' = (u_username <$> users db_empty) ++ ["admin"] ∧
  (words (world db_empty) = [] → word_entry <$> words (world db') = sample_words).
Proof.
  apply (init_admin_user_fresh (H := sample_digest) db_empty sample_words 2).
  - apply (bool_decide_unpack _). vm_compute. exact I.
  - lia.
Defined.


(** * Learners are kept apart *)

(** A review depends on the progress of the current user alone: in two
    worlds with the same words, the same clock reading and the same rows
    for that user, the rows of other users may differ at will and the
    review is the same. *)
Theorem review_ignores_other_users w1 w2 uid limit level :
  logged_in w1 uid →
  logged_in w2 uid →
  words w1 = words w2 →
  clock w1 (ticks w1) = clock w2 (ticks w2) →
  (∀ word_id, user_word_progress w1 !! (uid, word_id) =
              user_word_progress w2 !! (uid, word_id)) →
  eval (get_words_for_review limit level) w1 =
  eval (get_words_for_review limit level) w2.
Proof.
  intros Hu1 Hu2 Hw Hc Hp. unfold eval.
  rewrite (get_words_for_review_run w1 uid), (get_words_for_review_run w2 uid) by done.
  simpl. unfold review_query, left_join. rewrite Hw, Hc.
  do 4 f_equal. apply list_fmap_ext. intros i wr _. by rewrite Hp.
Qed.

Lemma review_ignores_other_users_witness :
  eval (get_words_for_review 10 None) world_two_fresh =
  eval (get_words_for_review 10 None)
    (mk_world [mk_word 1 0 "a"; mk_word 2 0 "a"]
       {[ (2, 1) := mk_progress 5 5 1 5 5 (Some 50) ]}
       (Some 1) (λ n, 1000 + Z.of_nat n)).
Proof.
  apply (review_ignores_other_users world_two_fresh
           (mk_world [mk_word 1 0 "a"; mk_word 2 0 "a"]
              {[ (2, 1) := mk_progress 5 5 1 5 5 (Some 50) ]}
              (Some 1) (λ n, 1000 + Z.of_nat n)) 1 10 None).
  - reflexivity.
  - reflexivity.
  - reflexivity.
  - reflexivity.
  - intros word_id. simpl. rewrite lookup_empty.
    symmetry. apply lookup_singleton_ne. congruence.
Defined.
